(** * helix-datadog-feeder: the DataDog delivery client ([src/datadog.js])

    A shallow embedding of [DataDogLogger] (constructor, [shouldSendLevel],
    [createLogEntry], [sendPayload], [sendEntries]) and of the retrying
    [fetchRetry] it posts with, followed by the properties of the
    specification that concern them. The field extractor
    ([src/extract-fields.js]) is a parameter of the client; the pipeline
    orchestrator ([src/index.js]) and a field extractor to run the test
    cases with are modelled from the specification.

    Conventions of the embedding.
    - A JavaScript string is the [string] of its UTF-8 bytes (the strings
      of well-formed text); equality, concatenation and the escapes of
      [JSON.stringify] read the same on the bytes. [toUpperCase],
      [toLowerCase] and [trimEnd] are computed on a string of ASCII
      characters, where they do not depend on Unicode; on any other string
      they are what the tables of Unicode say, and these tables are a
      parameter of the development.
    - JavaScript integers ([timestamp], the result of [indexOf]) are [Z];
      an HTTP status is an [N]; lengths and attempt counters are [nat].
    - [undefined] for an optional property is [None].
    - [async] code is sequential here ([await] at every call), so a
      computation is a function from the world before it to an outcome and
      the world after it; the world records, in order, every observable
      effect (diagnostics, requests, timer waits, queue messages). *)

From Stdlib Require Import List String Ascii Bool ZArith NArith Arith Lia.
From Stdlib Require Import DecimalString.
Import ListNotations.
Open Scope string_scope.

Set Implicit Arguments.
Set Warnings "-register-all".

(* ------------------------------------------------------------------ *)
(** ** JavaScript string primitives *)

Module JsString.

Definition is_upper (c : ascii) : bool :=
  let n := nat_of_ascii c in (65 <=? n)%nat && (n <=? 90)%nat.

Definition is_lower (c : ascii) : bool :=
  let n := nat_of_ascii c in (97 <=? n)%nat && (n <=? 122)%nat.

Definition upper_char (c : ascii) : ascii :=
  if is_lower c then ascii_of_nat (nat_of_ascii c - 32) else c.

Definition lower_char (c : ascii) : ascii :=
  if is_upper c then ascii_of_nat (nat_of_ascii c + 32) else c.

Fixpoint map_chars (f : ascii -> ascii) (s : string) : string :=
  match s with
  | EmptyString => EmptyString
  | String c rest => String (f c) (map_chars f rest)
  end.

(** The string holds ASCII characters only. *)
Fixpoint is_ascii (s : string) : bool :=
  match s with
  | EmptyString => true
  | String c rest => (nat_of_ascii c <? 128)%nat && is_ascii rest
  end.

(** The case mappings on a string of ASCII characters. *)
Definition ascii_upper : string -> string := map_chars upper_char.
Definition ascii_lower : string -> string := map_chars lower_char.

(** White space and line terminators of the ASCII range:
    TAB, LF, VT, FF, CR and SPACE. *)
Definition is_space (c : ascii) : bool :=
  let n := nat_of_ascii c in ((9 <=? n)%nat && (n <=? 13)%nat) || (n =? 32)%nat.

(** [trimEnd] on a string of ASCII characters: a character is kept when it
    is not white space or when something is kept after it. *)
Fixpoint ascii_trimEnd (s : string) : string :=
  match s with
  | EmptyString => EmptyString
  | String c rest =>
      match ascii_trimEnd rest with
      | EmptyString => if is_space c then EmptyString else String c EmptyString
      | kept => String c kept
      end
  end.

(** What [String.prototype.toUpperCase], [toLowerCase] and [trimEnd] give
    on a string that holds a character outside ASCII: the case mappings
    and the white space of the Unicode tables of the runtime. *)
Record Unicode := {
  upper : string -> string;
  lower : string -> string;
  trim_end : string -> string
}.

(** [String.prototype.toUpperCase], [toLowerCase] and [trimEnd]. *)
Definition toUpperCase (unicode : Unicode) (s : string) : string :=
  if is_ascii s then ascii_upper s else unicode.(upper) s.

Definition toLowerCase (unicode : Unicode) (s : string) : string :=
  if is_ascii s then ascii_lower s else unicode.(lower) s.

Definition trimEnd (unicode : Unicode) (s : string) : string :=
  if is_ascii s then ascii_trimEnd s else unicode.(trim_end) s.

(** Tables to run the ASCII strings of the test suite with; on such
    strings the tables are not consulted. *)
Definition no_tables : Unicode :=
  {| upper := fun s => s; lower := fun s => s; trim_end := fun s => s |}.

(** A JavaScript string is truthy when it is not empty; [undefined] is
    falsy. *)
Definition truthy (o : option string) : bool :=
  match o with
  | Some s => negb (s =? "")
  | None => false
  end.

(** [Number.prototype.toString] on a non-negative integer. *)
Definition of_N (n : N) : string := NilEmpty.string_of_uint (N.to_uint n).

(** [Array.prototype.indexOf] on an array of strings: the first position
    holding [x], and -1 when there is none. *)
Fixpoint indexOf_from (i : Z) (l : list string) (x : string) : Z :=
  match l with
  | [] => (-1)%Z
  | y :: rest => if y =? x then i else indexOf_from (i + 1) rest x
  end.

Definition indexOf (l : list string) (x : string) : Z := indexOf_from 0 l x.

End JsString.
Import JsString.

(* ------------------------------------------------------------------ *)
(** ** The severity scale and the logger's configuration *)

Definition LOG_LEVELS : list string :=
  ["TRACE"; "SILLY"; "DEBUG"; "VERBOSE"; "INFO"; "WARN"; "ERROR"].

(** The options object handed to the constructor; [log] (the console) is
    represented by the diagnostics of the world. *)
Record Opts := {
  apiKey : string;
  funcName : string;
  service : string;
  version : option string;
  logStream : option string;
  apiUrl : option string;
  level : option string
}.

(** [this._baseEntry]. *)
Record BaseEntry := {
  be_service : string;
  be_ddsource : string;
  be_hostname : string;
  be_ddtags : option string
}.

Record DataDogLogger := {
  _apiKey : string;
  _functionName : string;
  _logStream : option string;
  _apiUrl : string;
  _minLevel : Z;
  _baseEntry : BaseEntry
}.

(** A destructuring default applies when the property is [undefined]. *)
Definition default {A} (d : A) (o : option A) : A :=
  match o with Some a => a | None => d end.

(* ------------------------------------------------------------------ *)
(** ** [JSON.stringify] on the values this program serialises *)

Module JSON.

Inductive value :=
| Str (s : string)
| Obj (members : list (string * value)).

Definition dquote : string := String "034"%char EmptyString.

Definition hex_digit (n : nat) : ascii :=
  if (n <? 10)%nat then ascii_of_nat (48 + n) else ascii_of_nat (87 + n).

(** The escape of one character inside a JSON string literal. *)
Definition escape_char (c : ascii) : string :=
  let n := nat_of_ascii c in
  if (n =? 34)%nat then "\" ++ dquote
  else if (n =? 92)%nat then "\\"
  else if (n =? 8)%nat then "\b"
  else if (n =? 9)%nat then "\t"
  else if (n =? 10)%nat then "\n"
  else if (n =? 12)%nat then "\f"
  else if (n =? 13)%nat then "\r"
  else if (n <? 32)%nat
       then "\u00" ++ String (hex_digit (n / 16)) (String (hex_digit (n mod 16)) EmptyString)
  else String c EmptyString.

Fixpoint escape (s : string) : string :=
  match s with
  | EmptyString => EmptyString
  | String c rest => escape_char c ++ escape rest
  end.

Definition quote (s : string) : string := dquote ++ escape s ++ dquote.

Fixpoint stringify (v : value) : string :=
  match v with
  | Str s => quote s
  | Obj members =>
      "{" ++
      (fix go (l : list (string * value)) : string :=
         match l with
         | [] => ""
         | (k, x) :: rest =>
             quote k ++ ":" ++ stringify x ++
             match rest with [] => "" | _ :: _ => "," ++ go rest end
         end) members
      ++ "}"
  end.

(** Property lookup on an object value. *)
Fixpoint get (k : string) (members : list (string * value)) : option value :=
  match members with
  | [] => None
  | (k', x) :: rest => if k' =? k then Some x else get k rest
  end.

(** A property whose value is [undefined] is left out by [stringify]. *)
Definition optional (k : string) (o : option string) : list (string * value) :=
  match o with Some s => [(k, Str s)] | None => [] end.

End JSON.

(* ------------------------------------------------------------------ *)
(** ** Log events, extracted fields and log entries *)

Module ExtractedFields.
Record t := {
  event : option string;
  level : option string;
  request_id : option string;
  timestamp : option string
}.
End ExtractedFields.

(** [LogEvent]: one line of the CloudWatch subscription batch. *)
Module LogEvent.
Record t := {
  id : option string;
  timestamp : Z;
  message : option string;
  extractedFields : option ExtractedFields.t
}.
End LogEvent.

(** What [extractFields] returns for a line it can classify. *)
Module Fields.
Record t := {
  message : string;
  requestId : option string;
  level : string;
  timestamp : option string
}.
End Fields.

(** [DataDogLogEntry]. *)
Module LogEntry.
Record t := {
  timestamp : Z;
  message : string;
  level : string
}.
End LogEntry.

(** An element of the posted payload:
    [{ ...logEntry, ...this._baseEntry }]. *)
Module Entry.
Record t := {
  timestamp : Z;
  message : string;
  level : string;
  service : string;
  ddsource : string;
  hostname : string;
  ddtags : option string
}.
End Entry.

(** The object spread of [sendEntries]: the two objects have no property in
    common, so the result carries the properties of both. *)
Definition spread (logEntry : LogEntry.t) (base : BaseEntry) : Entry.t :=
  {| Entry.timestamp := logEntry.(LogEntry.timestamp);
     Entry.message := logEntry.(LogEntry.message);
     Entry.level := logEntry.(LogEntry.level);
     Entry.service := base.(be_service);
     Entry.ddsource := base.(be_ddsource);
     Entry.hostname := base.(be_hostname);
     Entry.ddtags := base.(be_ddtags) |}.

(* ------------------------------------------------------------------ *)
(** ** Errors, HTTP exchanges and the world *)

(** The exceptions this code distinguishes: [FetchError] is the transport
    failure of [@adobe/fetch], [Error] is what [new Error(...)] builds, and
    any other class is kept with its name. *)
Inductive JsError :=
| FetchError (message : string)
| Error (message : string)
| OtherError (name message : string).

Module Response.
Record t := {
  status : N;
  body : string
}.

(** [Response.ok]: the status is in the range 200-299. *)
Definition ok (r : t) : bool :=
  (200 <=? r.(status))%N && (r.(status) <=? 299)%N.

(** [await response.text()]. *)
Definition text (r : t) : string := r.(body).
End Response.

(** The request of [sendPayload]. Its body is [gzip(JSON.stringify(payload))]
    in the source; the embedding keeps the payload itself, which is what the
    intake endpoint recovers from it. *)
Module Request.
Record t := {
  url : string;
  method : string;
  headers : list (string * string);
  body : list Entry.t
}.
End Request.

(** How one call of [fetch] settles. *)
Inductive Settled :=
| Rejects (error : JsError)
| Resolves (response : Response.t).

(** An item of the dead-letter message (the DeadLetterEnvelope of the
    specification): a line that could not be classified, or an entry that
    could not be delivered. *)
Inductive DeadLetterItem :=
| RejectedLine (logEvent : LogEvent.t)
| Undelivered (logEntry : LogEntry.t).

(** The observable effects, in the order in which they happen. *)
Inductive Event :=
| Warned (logEvent : LogEvent.t)
    (* log.warn(`Unable to extract fields from: ...`) about this event *)
| Fetched (request : Request.t)
| Slept (ms : Z)
| Enqueued (envelope : list DeadLetterItem)
| EnqueueFailed (error : JsError).

Record World := {
  fetches : nat;        (* requests issued so far *)
  trace : list Event
}.

Definition emit (ev : Event) (w : World) : World :=
  {| fetches := w.(fetches); trace := w.(trace) ++ [ev] |}.

Definition start : World := {| fetches := 0; trace := [] |}.

(** How an asynchronous computation ends: its promise is fulfilled, is
    rejected, or (when the recursion budget of the embedding runs out) is
    not settled. *)
Inductive Outcome (A : Type) :=
| Returned (a : A)
| Thrown (e : JsError)
| Unsettled.
Arguments Returned {A} a.
Arguments Thrown {A} e.
Arguments Unsettled {A}.

Definition Async (A : Type) : Type := World -> Outcome A * World.

Definition ret {A} (a : A) : Async A := fun w => (Returned a, w).

Definition throw {A} (e : JsError) : Async A := fun w => (Thrown e, w).

Definition bind {A B} (m : Async A) (k : A -> Async B) : Async B :=
  fun w =>
    match m w with
    | (Returned a, w') => k a w'
    | (Thrown e, w') => (Thrown e, w')
    | (Unsettled, w') => (Unsettled, w')
    end.

(** [try { m } catch (e) { handler(e) }]. *)
Definition try_catch {A} (m : Async A) (handler : JsError -> Async A) : Async A :=
  fun w =>
    match m w with
    | (Thrown e, w') => handler e w'
    | settled => settled
    end.

Definition perform (ev : Event) : Async unit := fun w => (Returned tt, emit ev w).

Declare Scope async_scope.
Delimit Scope async_scope with async.
Notation "x <- m ;; k" := (bind m (fun x => k))
  (at level 61, m at next level, right associativity) : async_scope.
Notation "m ;;; k" := (bind m (fun _ => k))
  (at level 61, right associativity) : async_scope.
Open Scope async_scope.

(** [for (const x of xs) { acc = body(x, acc) }]. *)
Fixpoint for_of {A S} (body : A -> S -> Async S) (xs : list A) (acc : S) : Async S :=
  match xs with
  | [] => ret acc
  | x :: rest => acc' <- body x acc ;; for_of body rest acc'
  end.

(* ------------------------------------------------------------------ *)
(** ** The field extractor *)

Module FieldExtractor.

Definition tab : ascii := "009"%char.

(** The text before the first TAB and the text after it. *)
Fixpoint split_tab (s : string) : option (string * string) :=
  match s with
  | EmptyString => None
  | String c rest =>
      if Ascii.eqb c tab then Some (EmptyString, rest)
      else match split_tab rest with
           | Some (token, remainder) => Some (String c token, remainder)
           | None => None
           end
  end.

Fixpoint has_space (s : string) : bool :=
  match s with
  | EmptyString => false
  | String c rest => is_space c || has_space rest
  end.

Fixpoint trimStart (s : string) : string :=
  match s with
  | EmptyString => EmptyString
  | String c rest => if is_space c then trimStart rest else s
  end.

Definition trim (unicode : Unicode) (s : string) : string :=
  trimEnd unicode (trimStart s).

(** Modelled from the spec: [extractFields] of [src/extract-fields.js],
    which is not among the sources. A line without extracted fields
    cannot be classified; an explicit level is used upper-cased with the
    trimmed event text as the message; otherwise a leading token followed
    by a TAB is the severity candidate and the remainder is the message,
    and without such a token the whole text is the message at level INFO;
    the request id and the timestamp are copied through. *)
Definition extractFields (unicode : Unicode) (logEvent : LogEvent.t)
    : option Fields.t :=
  match logEvent.(LogEvent.extractedFields) with
  | None => None
  | Some ef =>
      let event := default "" ef.(ExtractedFields.event) in
      let (level, message) :=
        match ef.(ExtractedFields.level) with
        | Some level => (toUpperCase unicode level, trim unicode event)
        | None =>
            match split_tab event with
            | Some (token, remainder) =>
                if negb (token =? "") && negb (has_space token)
                then (token, remainder)
                else ("INFO", event)
            | None => ("INFO", event)
            end
        end in
      Some {| Fields.message := message;
              Fields.requestId := ef.(ExtractedFields.request_id);
              Fields.level := level;
              Fields.timestamp := ef.(ExtractedFields.timestamp) |}
  end.

End FieldExtractor.

(* ------------------------------------------------------------------ *)
(** ** Events, options and endpoints of the test suite *)

Module Samples.

Definition TAB : string := String "009"%char EmptyString.
Definition LF : string := String "010"%char EmptyString.

(** Writes a JSON text with ['] where the text has the double quote. *)
Definition json (s : string) : string :=
  map_chars (fun c => if Ascii.eqb c "'"%char then "034"%char else c) s.

Definition line (fields : ExtractedFields.t) : LogEvent.t :=
  {| LogEvent.id := None;
     LogEvent.timestamp := 1668084827204;
     LogEvent.message := None;
     LogEvent.extractedFields := Some fields |}.

Definition event_only (event : string) : ExtractedFields.t :=
  {| ExtractedFields.event := Some event;
     ExtractedFields.level := None;
     ExtractedFields.request_id := None;
     ExtractedFields.timestamp := None |}.

(** ['BLEEP\tthis should end up as INFO message\n'], with a request id
    and a timestamp. *)
Definition bleep : LogEvent.t :=
  line {| ExtractedFields.event :=
            Some ("BLEEP" ++ TAB ++ "this should end up as INFO message" ++ LF);
          ExtractedFields.level := None;
          ExtractedFields.request_id :=
            Some "d12ddc0c-1f6b-51d7-be22-83b52c83d6da";
          ExtractedFields.timestamp := Some "2024-11-21T13:12:30.462Z" |}.

Definition debug : LogEvent.t :=
  line (event_only ("DEBUG" ++ TAB ++ "this should not be visible" ++ LF)).

(** An event with an explicit level. *)
Definition debug_explicit : LogEvent.t :=
  line {| ExtractedFields.event := Some ("neither should this be visible" ++ LF);
          ExtractedFields.level := Some "DEBUG";
          ExtractedFields.request_id :=
            Some "d12ddc0c-1f6b-51d7-be22-83b52c83d6da";
          ExtractedFields.timestamp := Some "2024-11-21T13:12:30.462Z" |}.

Definition info : LogEvent.t :=
  line (event_only ("INFO" ++ TAB ++ "message" ++ LF)).

Definition timed_out : LogEvent.t :=
  line (event_only ("Task timed out after 60.07 seconds" ++ LF ++ LF)).

(** A line of a subscription without filter pattern. *)
Definition patternless : LogEvent.t :=
  {| LogEvent.id := None;
     LogEvent.timestamp := 1668084827204;
     LogEvent.message :=
       Some ("This message has no known pattern and will be discarded" ++ LF);
     LogEvent.extractedFields := None |}.

Definition opts : Opts :=
  {| apiKey := "foo-id";
     funcName := "/services/func/v1";
     service := "arn:aws:lambda:us-east-1:123456789012:function:services--func";
     version := None;
     logStream := None;
     apiUrl := None;
     level := None |}.

Definition opts_example_com : Opts :=
  {| apiKey := "foo-id";
     funcName := "/services/func/v1";
     service := "arn:aws:lambda:us-east-1:123456789012:function:services--func";
     version := None;
     logStream := None;
     apiUrl := Some "https://www.example.com";
     level := None |}.

Definition opts_versioned : Opts :=
  {| apiKey := "foo-id";
     funcName := "/services/func/v1";
     service := "arn:aws:lambda:us-east-1:123456789012:function:services--func";
     version := Some "1.0.0";
     logStream := None;
     apiUrl := None;
     level := Some "info" |}.

Definition status (code : N) (text : string) : Settled :=
  Resolves {| Response.status := code; Response.body := text |}.

(** An endpoint that accepts every request. *)
Definition accepting : nat -> Request.t -> Settled :=
  fun _ _ => status 200 "".

(** An endpoint that cannot be reached. *)
Definition unreachable : nat -> Request.t -> Settled :=
  fun _ _ => Rejects (FetchError "that went wrong").

(** An endpoint that is reached at the second request only. *)
Definition flaky : nat -> Request.t -> Settled :=
  fun n _ => match n with
             | O => Rejects (FetchError "that went wrong")
             | S _ => status 200 ""
             end.

Definition malformed : nat -> Request.t -> Settled :=
  fun _ _ => status 400 "input malformed".

Definition forbidden : nat -> Request.t -> Settled :=
  fun _ _ => status 403 "that went wrong".

Definition broken : nat -> Request.t -> Settled :=
  fun _ _ => Rejects (OtherError "TypeError" "something went wrong").

(** A queue that takes every message. *)
Definition queue : list DeadLetterItem -> option JsError := fun _ => None.

End Samples.

(* ------------------------------------------------------------------ *)
(** ** [fetch-retry]: the wrapper around [fetch] *)

(** [wrapFetch(fetch, { retryDelay, retryOn })] of the [fetch-retry] package,
    with both options given as functions, as this program gives them. After
    each call of [fetch] the wrapper asks [retryOn(attempt, error, response)]
    (one of [error] and [response] is [null], which [Settled] says in one
    argument): when it throws, the promise is rejected with what it threw;
    when it answers [true], the wrapper waits [retryDelay(attempt)]
    milliseconds and calls [fetch] again with [attempt + 1]; when it answers
    [false], the promise settles the way the call did. The wrapper itself
    has no bound, hence the budget [fuel] of calls. *)
Section FetchRetryPackage.

Variable fetch : Request.t -> World -> Settled * World.
Variable retryDelay : nat -> Z.
Variable retryOn : nat -> Settled -> JsError + bool.

Fixpoint wrappedFetch (fuel : nat) (input : Request.t) (attempt : nat)
    : Async Response.t :=
  match fuel with
  | O => fun w => (Unsettled, w)
  | S fuel' =>
      fun w =>
        let (settled, w1) := fetch input w in
        match retryOn attempt settled with
        | inl thrown => (Thrown thrown, w1)
        | inr true =>
            wrappedFetch fuel' input (S attempt)
              (emit (Slept (retryDelay attempt)) w1)
        | inr false =>
            match settled with
            | Resolves response => (Returned response, w1)
            | Rejects error => (Thrown error, w1)
            end
        end
  end.

Definition wrapFetch (fuel : nat) (input : Request.t) : Async Response.t :=
  wrappedFetch fuel input 0.

End FetchRetryPackage.

(* ------------------------------------------------------------------ *)
(** ** The delivery client *)

Section Feeder.

(** The Unicode tables of the runtime, for the strings that are not ASCII. *)
Variable unicode : Unicode.

Local Abbreviation toUpperCase := (JsString.toUpperCase unicode).
Local Abbreviation toLowerCase := (JsString.toLowerCase unicode).
Local Abbreviation trimEnd := (JsString.trimEnd unicode).

Definition constructor (opts : Opts) : DataDogLogger :=
  let apiUrl := default "https://http-intake.logs.datadoghq.com" opts.(apiUrl) in
  let level := default "info" opts.(level) in
  let minLevel := indexOf LOG_LEVELS (toUpperCase level) in
  {| _apiKey := opts.(apiKey);
     _functionName := opts.(funcName);
     _logStream := opts.(logStream);
     _apiUrl := apiUrl;
     _minLevel := if (minLevel =? -1)%Z then indexOf LOG_LEVELS "INFO" else minLevel;
     _baseEntry :=
       {| be_service := opts.(service);
          be_ddsource := "aws-lambda";
          be_hostname := "lambda";
          be_ddtags :=
            if truthy opts.(version)
            then Some ("version:" ++ default "" opts.(version))
            else None |} |}.

Definition shouldSendLevel (this : DataDogLogger) (level : string) : bool :=
  (this.(_minLevel) <=? indexOf LOG_LEVELS level)%Z.

(** The [text] object of [createLogEntry]; [requestId || 'n/a'] replaces an
    absent or empty request id. *)
Definition text_of (this : DataDogLogger) (fields : Fields.t) : JSON.value :=
  JSON.Obj
    ([ ("inv", JSON.Obj
          [ ("invocationId",
             JSON.Str (if truthy fields.(Fields.requestId)
                       then default "" fields.(Fields.requestId)
                       else "n/a"));
            ("functionName", JSON.Str this.(_functionName)) ]);
       ("message", JSON.Str (trimEnd fields.(Fields.message)));
       ("level", JSON.Str (toLowerCase fields.(Fields.level))) ]
     ++ JSON.optional "timestamp" fields.(Fields.timestamp)
     ++ (if truthy this.(_logStream)
         then JSON.optional "logStream" this.(_logStream)
         else [])).

(** The entry [createLogEntry] builds once the fields are extracted. *)
Definition entry_of (this : DataDogLogger) (logEvent : LogEvent.t)
    (fields : Fields.t) : LogEntry.t :=
  let level :=
    if (indexOf LOG_LEVELS fields.(Fields.level) =? -1)%Z
    then "INFO" else fields.(Fields.level) in
  {| LogEntry.timestamp := logEvent.(LogEvent.timestamp);
     LogEntry.message := JSON.stringify (text_of this fields);
     LogEntry.level := level |}.

(** [process.env.HELIX_FETCH_FORCE_HTTP1 === 'true']: set by the test
    harness only. *)
Variable MOCHA_ENV : bool.

(** [extractFields] of [./extract-fields.js]: the fields of a log event,
    or nothing when the event cannot be classified. *)
Variable extractFields : LogEvent.t -> option Fields.t.

(** The intake endpoint: how the [n]-th request issued (counted from 0)
    settles. *)
Variable intake : nat -> Request.t -> Settled.

Definition fetch (input : Request.t) (w : World) : Settled * World :=
  (intake w.(fetches) input,
   {| fetches := S w.(fetches); trace := w.(trace) ++ [Fetched input] |}).

Definition retryDelay (attempt : nat) : Z :=
  if MOCHA_ENV then 1%Z
  else (2 ^ Z.of_nat attempt * 1000)%Z.

(** [const retries = MOCHA_ENV ? 1 : 2] of [retryOn]. *)
Definition retries : nat := if MOCHA_ENV then 1 else 2.

Definition rejection_message (response : Response.t) : string :=
  "Failed to send logs with status " ++ of_N response.(Response.status)
    ++ ": " ++ Response.text response.

Definition retryOn (attempt : nat) (settled : Settled) : JsError + bool :=
  match settled with
  | Rejects error =>
      match error with
      | FetchError _ => inr (attempt <? retries)%nat
      | _ => inl error
      end
  | Resolves response =>
      if negb (Response.ok response)
      then inl (Error (rejection_message response))
      else inr false
  end.

(** [fetchRetry]. With this [retryOn] the wrapper calls [fetch] at most
    [retries + 1] times, which is the budget it is given here
    ([fetchRetry_budget] below shows that a larger one changes nothing). *)
Definition fetchRetry : Request.t -> Async Response.t :=
  wrapFetch fetch retryDelay retryOn (S retries).

(** [new Request(url, { method, headers, body })] of [sendPayload]. *)
Definition request_for (this : DataDogLogger) (payload : list Entry.t)
    : Request.t :=
  let url := this.(_apiUrl) ++ "/api/v2/logs" in
  {| Request.url := url;
     Request.method := "POST";
     Request.headers :=
       [ ("content-type", "application/json");
         ("content-encoding", "gzip");
         ("DD-API-KEY", this.(_apiKey)) ];
     Request.body := payload |}.

Definition sendPayload (this : DataDogLogger) (payload : list Entry.t)
    : Async Response.t :=
  resp <- fetchRetry (request_for this payload) ;;
  ret resp.

Definition createLogEntry (this : DataDogLogger) (logEvent : LogEvent.t)
    : Async (option LogEntry.t) :=
  match extractFields logEvent with
  | None => perform (Warned logEvent) ;;; ret None
  | Some fields => ret (Some (entry_of this logEvent fields))
  end.

(** What [sendEntries] resolves to. *)
Record SendResult := {
  rejected : list LogEvent.t;
  sent : nat
}.

(** The body of the loop of [sendEntries]; [push] appends. *)
Definition classify (this : DataDogLogger) (logEvent : LogEvent.t)
    (acc : list LogEvent.t * list LogEntry.t)
    : Async (list LogEvent.t * list LogEntry.t) :=
  let (rejected, logEntries) := acc in
  logEntry <- createLogEntry this logEvent ;;
  match logEntry with
  | None => ret ((rejected ++ [logEvent])%list, logEntries)
  | Some logEntry =>
      if shouldSendLevel this (toUpperCase logEntry.(LogEntry.level))
      then ret (rejected, (logEntries ++ [logEntry])%list)
      else ret (rejected, logEntries)
  end.

Definition sendEntries (this : DataDogLogger) (logEvents : list LogEvent.t)
    : Async SendResult :=
  acc <- for_of (classify this) logEvents ([], []) ;;
  let (rejected, logEntries) := acc in
  (if (List.length logEntries =? 0)%nat
   then ret tt
   else sendPayload this
          (map (fun logEntry => spread logEntry this.(_baseEntry)) logEntries) ;;;
        ret tt) ;;;
  ret {| rejected := rejected; sent := List.length logEntries |}.

(* ---------------------------------------------------------------- *)
(** *** What becomes of each event *)

(** The three ways [sendEntries] disposes of a log event. *)
Inductive Fate :=
| IsRejected
| IsDropped (logEntry : LogEntry.t)
| IsDelivered (logEntry : LogEntry.t).

Definition fate (this : DataDogLogger) (logEvent : LogEvent.t) : Fate :=
  match extractFields logEvent with
  | None => IsRejected
  | Some fields =>
      let logEntry := entry_of this logEvent fields in
      if shouldSendLevel this (toUpperCase logEntry.(LogEntry.level))
      then IsDelivered logEntry
      else IsDropped logEntry
  end.

Definition is_rejected (f : Fate) : bool :=
  match f with IsRejected => true | _ => false end.

Definition is_dropped (f : Fate) : bool :=
  match f with IsDropped _ => true | _ => false end.

Definition delivered (f : Fate) : list LogEntry.t :=
  match f with IsDelivered logEntry => [logEntry] | _ => [] end.

(** The events whose entry cannot be created, in input order. *)
Definition rejected_of (this : DataDogLogger) (logEvents : list LogEvent.t)
    : list LogEvent.t :=
  filter (fun logEvent => is_rejected (fate this logEvent)) logEvents.

(** The events the severity filter drops, in input order. *)
Definition dropped_of (this : DataDogLogger) (logEvents : list LogEvent.t)
    : list LogEvent.t :=
  filter (fun logEvent => is_dropped (fate this logEvent)) logEvents.

(** The entries of the events that pass the filter, in input order. *)
Definition delivered_of (this : DataDogLogger) (logEvents : list LogEvent.t)
    : list LogEntry.t :=
  flat_map (fun logEvent => delivered (fate this logEvent)) logEvents.

(** The events for which [extractFields] finds nothing. *)
Definition unclassifiable (logEvent : LogEvent.t) : bool :=
  match extractFields logEvent with None => true | Some _ => false end.

(** The entries of the events that can be classified, in input order. *)
Definition accepted_of (this : DataDogLogger) (logEvents : list LogEvent.t)
    : list LogEntry.t :=
  flat_map (fun logEvent =>
              match extractFields logEvent with
              | Some fields => [entry_of this logEvent fields]
              | None => []
              end) logEvents.

(** The world once the unclassifiable events have been warned about. *)
Definition warned (logEvents : list LogEvent.t) (w : World) : World :=
  {| fetches := w.(fetches);
     trace := w.(trace) ++ map Warned (filter unclassifiable logEvents) |}.

(** The payload posted for these events. *)
Definition payload_of (this : DataDogLogger) (logEvents : list LogEvent.t)
    : list Entry.t :=
  map (fun logEntry => spread logEntry this.(_baseEntry))
      (delivered_of this logEvents).

(** The trace of a retry loop whose attempts [a], ..., [a + k - 1] were
    each followed by a wait. *)
Definition backoff (input : Request.t) (a k : nat) : list Event :=
  flat_map (fun n => [Fetched input; Slept (retryDelay n)]) (seq a k).

(* ---------------------------------------------------------------- *)
(** *** The pipeline orchestrator *)

(** The dead-letter queue: the error with which an enqueue call fails, if
    it does. *)
Variable enqueue : list DeadLetterItem -> option JsError.

(** Modelled from the spec: what the pipeline reports in its Done state. *)
Record Report := {
  rejectedCount : nat;
  sentCount : nat
}.

(** Modelled from the spec: the DeadLettering state of the orchestrator
    ([src/index.js] is not among the sources). A non-empty forward set is
    sent to the queue; a failure to enqueue is logged and fails nothing. *)
Definition forward (items : list DeadLetterItem) : Async unit :=
  match items with
  | [] => ret tt
  | _ :: _ =>
      perform (Enqueued items) ;;;
      match enqueue items with
      | Some error => perform (EnqueueFailed error)
      | None => ret tt
      end
  end.

(** Modelled from the spec: the Extracting state, which runs the field
    extractor over every line in order and partitions the lines into the
    rejected lines and the accepted records. *)
Definition extracting (this : DataDogLogger) (logEvents : list LogEvent.t)
    : Async (list LogEvent.t * list LogEntry.t) :=
  for_of
    (fun logEvent (acc : list LogEvent.t * list LogEntry.t) =>
       let (rejected, accepted) := acc in
       logEntry <- createLogEntry this logEvent ;;
       match logEntry with
       | None => ret ((rejected ++ [logEvent])%list, accepted)
       | Some record => ret (rejected, (accepted ++ [record])%list)
       end)
    logEvents ([], []).

(** Modelled from the spec: the Filtering state. *)
Definition filtering (this : DataDogLogger) (accepted : list LogEntry.t)
    : list LogEntry.t :=
  filter (fun record => shouldSendLevel this record.(LogEntry.level)) accepted.

(** Modelled from the spec: the contract [deliver(records)] of the
    delivery client, a no-op on the empty set and one retried request
    otherwise. *)
Definition deliver (this : DataDogLogger) (records : list LogEntry.t)
    : Async unit :=
  match records with
  | [] => ret tt
  | _ :: _ =>
      sendPayload this
        (map (fun record => spread record this.(_baseEntry)) records) ;;;
      ret tt
  end.

(** Modelled from the spec: the states Extracting, Filtering, Delivering,
    DeadLettering and Done of the pipeline orchestrator. When delivery
    succeeds the rejected lines are forwarded; when it fails the surviving
    records are forwarded in addition to them and the delivery error is
    raised again once the forwarding attempt is over. *)
Definition pipeline (this : DataDogLogger) (logEvents : list LogEvent.t)
    : Async Report :=
  parts <- extracting this logEvents ;;
  let (rejected, accepted) := parts in
  let surviving := filtering this accepted in
  failure <- try_catch (deliver this surviving ;;; ret None)
                       (fun error => ret (Some error)) ;;
  match failure with
  | None =>
      forward (map RejectedLine rejected) ;;;
      ret {| rejectedCount := List.length rejected;
             sentCount := List.length surviving |}
  | Some error =>
      forward (map RejectedLine rejected ++ map Undelivered surviving) ;;;
      throw error
  end.

(** The undelivered entries carried by a dead-letter message. *)
Definition undelivered (envelope : list DeadLetterItem) : list LogEntry.t :=
  flat_map (fun item => match item with
                        | Undelivered logEntry => [logEntry]
                        | RejectedLine _ => []
                        end) envelope.

(** Membership in the scale, decided by comparing with each name. *)
Definition on_scale (x : string) : bool := existsb (String.eqb x) LOG_LEVELS.

(** The world right after one more call of [fetch]. *)
Definition fetched (input : Request.t) (w : World) : World :=
  {| fetches := S w.(fetches); trace := w.(trace) ++ [Fetched input] |}.

(** An event the retry loop for [input] may add to the trace. *)
Definition request_or_wait (input : Request.t) (ev : Event) : Prop :=
  ev = Fetched input \/ exists ms, ev = Slept ms.

(** How the retry loop settles on the answer at which it stops: a response
    in the 200-299 range fulfils the promise, any other response rejects it
    with the error of [retryOn], and an error rejects it with that error. *)
Definition settle (settled : Settled) : Outcome Response.t :=
  match settled with
  | Resolves response =>
      if Response.ok response then Returned response
      else Thrown (Error (rejection_message response))
  | Rejects error => Thrown error
  end.

(** All the characters of a string satisfy [p]. *)
Fixpoint all_chars (p : ascii -> bool) (s : string) : bool :=
  match s with
  | EmptyString => true
  | String c rest => p c && all_chars p rest
  end.

(** Not a control character of the C0 range (U+0000 to U+001F), the range
    of the line feed, the carriage return and the tab. In UTF-8 every byte
    of a character outside ASCII is above this range. *)
Definition not_C0_control (c : ascii) : bool := (32 <=? nat_of_ascii c)%nat.

(** The options with another [level]. *)
Definition with_level (opts : Opts) (threshold : string) : Opts :=
  {| apiKey := opts.(apiKey);
     funcName := opts.(funcName);
     service := opts.(service);
     version := opts.(version);
     logStream := opts.(logStream);
     apiUrl := opts.(apiUrl);
     level := Some threshold |}.

(* ------------------------------------------------------------------ *)
(** ** Properties *)

Open Scope list_scope.

(** *** Positions on the severity scale *)

Lemma indexOf_from_absent (l : list string) (x : string) (i : Z) :
  ~ In x l -> indexOf_from i l x = (-1)%Z.
Proof.
  revert i; induction l as [|y l IH]; intros i Hx; simpl; [reflexivity|].
  destruct (String.eqb_spec y x) as [->|_].
  - exfalso; apply Hx; now left.
  - apply IH; intro Hin; apply Hx; now right.
Qed.

Lemma indexOf_from_present (l : list string) (x : string) (i : Z) :
  In x l -> (i <= indexOf_from i l x < i + Z.of_nat (List.length l))%Z.
Proof.
  revert i; induction l as [|y l IH]; intros i Hx; [destruct Hx|].
  cbn [indexOf_from List.length].
  destruct (String.eqb_spec y x) as [->|Hne].
  - lia.
  - destruct Hx as [->|Hx]; [congruence|].
    specialize (IH (i + 1)%Z Hx); lia.
Qed.

Lemma indexOf_absent (l : list string) (x : string) :
  ~ In x l -> indexOf l x = (-1)%Z.
Proof. apply indexOf_from_absent. Qed.

Lemma indexOf_present (l : list string) (x : string) :
  In x l -> (0 <= indexOf l x < Z.of_nat (List.length l))%Z.
Proof. intro Hx; apply (indexOf_from_present l x 0 Hx). Qed.

Lemma on_scale_In (x : string) : on_scale x = true <-> In x LOG_LEVELS.
Proof.
  unfold on_scale; rewrite existsb_exists; split.
  - intros [y [Hy Heq]]; apply String.eqb_eq in Heq; now subst.
  - intro Hx; exists x; split; [assumption | apply String.eqb_refl].
Qed.

Lemma on_scale_false (x : string) : on_scale x = false -> ~ In x LOG_LEVELS.
Proof.
  intros Hf Hin; apply on_scale_In in Hin; congruence.
Qed.

(** The threshold position the constructor stores. *)
Lemma minLevel_constructor (opts : Opts) :
  let t := toUpperCase (default "info" opts.(level)) in
  (constructor opts).(_minLevel)
  = indexOf LOG_LEVELS (if on_scale t then t else "INFO").
Proof.
  intro t; cbn [constructor _minLevel]; fold t.
  destruct (on_scale t) eqn:Ht.
  - apply on_scale_In, indexOf_present in Ht.
    destruct (Z.eqb_spec (indexOf LOG_LEVELS t) (-1)); [lia | reflexivity].
  - apply on_scale_false, indexOf_absent in Ht.
    rewrite Ht; reflexivity.
Qed.

Lemma minLevel_range (opts : Opts) :
  (0 <= (constructor opts).(_minLevel) <= 6)%Z.
Proof.
  rewrite minLevel_constructor.
  destruct (on_scale _) eqn:Ht.
  - apply on_scale_In, indexOf_present in Ht; simpl in Ht; lia.
  - vm_compute; split; discriminate.
Qed.

(** C2. The severity filter is the ordinal comparison on the scale
    TRACE, SILLY, DEBUG, VERBOSE, INFO, WARN, ERROR (positions 0 to 6):
    a level [l] passes exactly when its position is at least that of the
    configured threshold, where the threshold is read upper-cased (the
    default is "info") and one that is not on the scale counts as INFO. *)
Theorem severity_filter_ordering (opts : Opts) (l : string) :
  let t := toUpperCase (default "info" opts.(level)) in
  map (indexOf LOG_LEVELS) LOG_LEVELS = [0; 1; 2; 3; 4; 5; 6]%Z
  /\ (shouldSendLevel (constructor opts) l = true
      <-> (indexOf LOG_LEVELS l
           >= indexOf LOG_LEVELS (if on_scale t then t else "INFO"))%Z).
Proof.
  intro t; split; [reflexivity|].
  unfold shouldSendLevel.
  rewrite (minLevel_constructor opts); fold t.
  rewrite Z.leb_le; lia.
Qed.

(** C10. The filter compares the level as it is spelled: a string that
    is not exactly one of the upper-case names of the scale has position
    -1, below every threshold, and is never sent. *)
Theorem unlisted_level_never_sent (opts : Opts) (l : string) :
  ~ In l LOG_LEVELS ->
  indexOf LOG_LEVELS l = (-1)%Z
  /\ shouldSendLevel (constructor opts) l = false.
Proof.
  intro Hl.
  pose proof (indexOf_absent LOG_LEVELS l Hl) as Hi.
  pose proof (minLevel_range opts) as Hm.
  split; [assumption|].
  unfold shouldSendLevel; rewrite Hi.
  apply Z.leb_gt; lia.
Qed.

(** *** The retry loop *)

Local Abbreviation loop := (wrappedFetch fetch retryDelay retryOn).

Lemma loop_step (fuel : nat) (input : Request.t) (attempt : nat) (w : World) :
  loop (S fuel) input attempt w =
  match retryOn attempt (intake w.(fetches) input) with
  | inl thrown => (Thrown thrown, fetched input w)
  | inr true =>
      loop fuel input (S attempt)
        (emit (Slept (retryDelay attempt)) (fetched input w))
  | inr false =>
      match intake w.(fetches) input with
      | Resolves response => (Returned response, fetched input w)
      | Rejects error => (Thrown error, fetched input w)
      end
  end.
Proof. reflexivity. Qed.

Lemma world_eta (w : World) :
  {| fetches := w.(fetches) + 0; trace := w.(trace) ++ [] |} = w.
Proof. destruct w; simpl; now rewrite Nat.add_0_r, app_nil_r. Qed.

(** [k] transport failures within the bound cost [k] requests, each
    followed by its wait, and leave the loop at attempt [attempt + k]. *)
Lemma loop_transport_failures (k : nat) :
  forall (fuel : nat) (input : Request.t) (attempt : nat) (w : World)
         (msg : nat -> string),
    attempt + k <= retries ->
    (forall n, n < k ->
       intake (w.(fetches) + n) input = Rejects (FetchError (msg n))) ->
    loop (k + fuel) input attempt w =
    loop fuel input (attempt + k)
      {| fetches := w.(fetches) + k;
         trace := w.(trace) ++ backoff input attempt k |}.
Proof.
  induction k as [|k IH]; intros fuel input attempt w msg Hle Hfail.
  - unfold backoff; simpl; now rewrite world_eta, Nat.add_0_r.
  - change (S k + fuel) with (S (k + fuel)); rewrite loop_step.
    pose proof (Hfail 0 ltac:(lia)) as H0; rewrite Nat.add_0_r in H0.
    rewrite H0; simpl retryOn.
    replace (attempt <? retries)%nat with true
      by (symmetry; apply Nat.ltb_lt; lia).
    rewrite (IH fuel input (S attempt) _ (fun n => msg (S n))).
    + f_equal; [lia|]. unfold emit, fetched; simpl. f_equal; [lia|].
      unfold backoff; simpl; now rewrite <- !app_assoc.
    + lia.
    + intros n Hn; simpl.
      replace (S (fetches w + n)) with (fetches w + S n) by lia.
      apply Hfail; lia.
Qed.

Lemma loop_budget (fuel : nat) :
  forall (extra : nat) (input : Request.t) (attempt : nat) (w : World),
    retries <= fuel + attempt ->
    loop (S fuel + extra) input attempt w = loop (S fuel) input attempt w
    /\ fst (loop (S fuel) input attempt w) <> Unsettled.
Proof.
  induction fuel as [|fuel IH]; intros extra input attempt w Hle;
    change (S ?f + extra) with (S (f + extra));
    rewrite (loop_step (_ + extra) input attempt w);
    rewrite (loop_step _ input attempt w);
    destruct (intake (fetches w) input) as [[m|m|n m]|r]; unfold retryOn;
    try (split; [reflexivity | discriminate]);
    try (destruct (negb (Response.ok r)); split;
         try reflexivity; discriminate).
  - replace (attempt <? retries)%nat with false
      by (symmetry; apply Nat.ltb_ge; lia).
    split; [reflexivity | discriminate].
  - destruct (attempt <? retries)%nat.
    + apply (IH extra); lia.
    + split; [reflexivity | discriminate].
Qed.

(** A larger budget does not change [fetchRetry], and its promise always
    settles. *)
Lemma fetchRetry_budget (extra : nat) (input : Request.t) (w : World) :
  wrapFetch fetch retryDelay retryOn (S retries + extra) input w
  = fetchRetry input w
  /\ fst (fetchRetry input w) <> Unsettled.
Proof. apply loop_budget; lia. Qed.

(** The loop only adds requests for [input] and waits to the trace, and
    the first thing it adds is a request. *)
Lemma loop_trace (fuel : nat) :
  forall (input : Request.t) (attempt : nat) (w : World),
  exists rest,
    (snd (loop (S fuel) input attempt w)).(trace)
    = w.(trace) ++ Fetched input :: rest
    /\ Forall (request_or_wait input) rest.
Proof.
  induction fuel as [|fuel IH]; intros input attempt w; rewrite loop_step;
    destruct (retryOn attempt _) as [e|[|]];
    try (exists []; split; [reflexivity | constructor]);
    try (exists []; destruct (intake _ _); split;
         [reflexivity | constructor | reflexivity | constructor]).
  - exists [Slept (retryDelay attempt)]; simpl; rewrite <- app_assoc.
    split; [reflexivity|]. constructor; [right; eauto | constructor].
  - destruct (IH input (S attempt)
                (emit (Slept (retryDelay attempt)) (fetched input w)))
      as [rest [Hrest Hall]].
    exists (Slept (retryDelay attempt) :: Fetched input :: rest).
    rewrite Hrest; simpl; rewrite <- !app_assoc; simpl.
    split; [reflexivity|].
    constructor; [right; eauto|]. constructor; [now left | assumption].
Qed.

Lemma retries_production : MOCHA_ENV = false -> retries = 2.
Proof. unfold retries; now intros ->. Qed.

Lemma retryDelay_production (n : nat) :
  MOCHA_ENV = false -> retryDelay n = (2 ^ Z.of_nat n * 1000)%Z.
Proof. unfold retryDelay; now intros ->. Qed.

(** The loop after [k] transport failures within the bound. *)
Lemma fetchRetry_after_failures (k : nat) (input : Request.t) (w : World)
    (msg : nat -> string) :
  k <= retries ->
  (forall n, n < k ->
     intake (w.(fetches) + n) input = Rejects (FetchError (msg n))) ->
  fetchRetry input w =
  loop (S (retries - k)) input k
    {| fetches := w.(fetches) + k;
       trace := w.(trace) ++ backoff input 0 k |}.
Proof.
  intros Hk Hfail; unfold fetchRetry, wrapFetch.
  replace (S retries) with (k + S (retries - k)) by lia.
  now rewrite (@loop_transport_failures k _ input 0 w msg).
Qed.

(** C3. A transport failure is retried up to a fixed bound ([retries],
    which is 2 outside the test harness), after a wait of
    [retryDelay n], which outside the test harness is [2 ^ n] seconds for
    the failed attempt [n] counted from 0 (1 s, 2 s, ...): after [k]
    transport failures within the bound the request has been issued again
    [k] times, each time after its wait; and when every attempt up to the
    bound fails in this way, the error of the last attempt is the one
    raised, with no further request. *)
Theorem retry_policy (input : Request.t) (w : World) (msg : nat -> string) :
  (MOCHA_ENV = false ->
   retries = 2 /\ forall n, retryDelay n = (2 ^ Z.of_nat n * 1000)%Z)
  /\ (forall k, k <= retries ->
        (forall n, n < k ->
           intake (w.(fetches) + n) input = Rejects (FetchError (msg n))) ->
        exists rest,
          (snd (fetchRetry input w)).(trace)
          = w.(trace)
            ++ flat_map (fun n => [Fetched input; Slept (retryDelay n)])
                        (seq 0 k)
            ++ Fetched input :: rest)
  /\ ((forall n, n <= retries ->
         intake (w.(fetches) + n) input = Rejects (FetchError (msg n))) ->
      fetchRetry input w
      = (Thrown (FetchError (msg retries)),
         {| fetches := w.(fetches) + retries + 1;
            trace := w.(trace)
                     ++ flat_map (fun n => [Fetched input;
                                            Slept (retryDelay n)])
                                 (seq 0 retries)
                     ++ [Fetched input] |})).
Proof.
  split.
  { intro Hprod; split; [now apply retries_production|].
    intro n; now apply retryDelay_production. }
  split.
  - intros k Hk Hfail.
    rewrite (@fetchRetry_after_failures k input w msg) by assumption.
    destruct (loop_trace (retries - k) input k
                {| fetches := fetches w + k;
                   trace := trace w ++ backoff input 0 k |})
      as [rest [Hrest _]].
    exists rest; rewrite Hrest; cbn [trace].
    unfold backoff; now rewrite <- app_assoc.
  - intro Hfail.
    rewrite (@fetchRetry_after_failures retries input w msg)
      by (first [ apply le_n | intros; apply Hfail; lia ]).
    rewrite Nat.sub_diag, loop_step; cbn [fetches trace].
    rewrite (Hfail retries (le_n _)); unfold retryOn.
    rewrite Nat.ltb_irrefl. unfold fetched, backoff; cbn [fetches trace].
    f_equal. f_equal; [lia|]. now rewrite <- app_assoc.
Qed.

(** C4. A response outside the 200-299 range ends the delivery at once,
    on whichever attempt it arrives: the error raised is
    [Failed to send logs with status <status>: <body>], and the request
    that received the response is the last one issued. *)
Theorem rejection_not_retried (input : Request.t) (w : World) (k : nat)
    (msg : nat -> string) (response : Response.t) :
  k <= retries ->
  (forall n, n < k ->
     intake (w.(fetches) + n) input = Rejects (FetchError (msg n))) ->
  intake (w.(fetches) + k) input = Resolves response ->
  Response.ok response = false ->
  fetchRetry input w
  = (Thrown (Error ("Failed to send logs with status "
                    ++ of_N response.(Response.status)
                    ++ ": " ++ response.(Response.body))%string),
     {| fetches := w.(fetches) + k + 1;
        trace := w.(trace) ++ backoff input 0 k ++ [Fetched input] |}).
Proof.
  intros Hk Hfail Hresp Hbad.
  rewrite (@fetchRetry_after_failures k input w msg) by assumption.
  rewrite loop_step; cbn [fetches trace].
  rewrite Hresp; unfold retryOn; rewrite Hbad; cbn [negb].
  unfold fetched, rejection_message, Response.text; cbn [fetches trace].
  f_equal. f_equal; [lia|]. now rewrite <- app_assoc.
Qed.

(** *** The loop of [sendEntries] *)

Lemma is_rejected_fate (this : DataDogLogger) (logEvent : LogEvent.t) :
  is_rejected (fate this logEvent) = unclassifiable logEvent.
Proof.
  unfold fate, unclassifiable.
  destruct (extractFields logEvent); [|reflexivity].
  cbv zeta; now destruct (shouldSendLevel _ _).
Qed.

Lemma rejected_of_filter (this : DataDogLogger) (logEvents : list LogEvent.t) :
  rejected_of this logEvents = filter unclassifiable logEvents.
Proof.
  unfold rejected_of; apply filter_ext; intro; apply is_rejected_fate.
Qed.

Lemma emit_warned (logEvent : LogEvent.t) (rest : list LogEvent.t) (w : World) :
  warned rest (emit (Warned logEvent) w)
  = {| fetches := w.(fetches);
       trace := w.(trace)
                ++ Warned logEvent :: map Warned (filter unclassifiable rest) |}.
Proof. unfold warned, emit; simpl; now rewrite <- app_assoc. Qed.

(** One turn of the loop. *)
Lemma classify_eq (this : DataDogLogger) (logEvent : LogEvent.t)
    (rejected : list LogEvent.t) (logEntries : list LogEntry.t) (w : World) :
  classify this logEvent (rejected, logEntries) w
  = (Returned (rejected ++ filter unclassifiable [logEvent],
               logEntries ++ delivered (fate this logEvent)),
     warned [logEvent] w).
Proof.
  unfold classify, createLogEntry, fate, warned, unclassifiable.
  cbn [filter].
  destruct (extractFields logEvent) as [fields|]; cbv zeta.
  - unfold bind, ret.
    destruct (shouldSendLevel this _); cbn [delivered map];
      rewrite !app_nil_r; now destruct w.
  - unfold bind, perform, ret, emit; cbn [delivered map].
    now rewrite app_nil_r.
Qed.

Lemma classify_loop (this : DataDogLogger) (logEvents : list LogEvent.t) :
  forall (rejected : list LogEvent.t) (logEntries : list LogEntry.t) (w : World),
    for_of (classify this) logEvents (rejected, logEntries) w
    = (Returned (rejected ++ filter unclassifiable logEvents,
                 logEntries ++ delivered_of this logEvents),
       warned logEvents w).
Proof.
  induction logEvents as [|logEvent rest IH]; intros rejected logEntries w.
  - unfold warned; simpl; unfold ret.
    rewrite !app_nil_r; now destruct w.
  - cbn [for_of]; unfold bind; rewrite classify_eq, IH.
    unfold warned, delivered_of; cbn [filter flat_map fetches trace].
    destruct (unclassifiable logEvent); cbn [map];
      now rewrite <- !app_assoc.
Qed.

(** [sendEntries] in terms of what becomes of each event. *)
Lemma sendEntries_eq (this : DataDogLogger) (logEvents : list LogEvent.t)
    (w : World) :
  sendEntries this logEvents w =
  match delivered_of this logEvents with
  | [] => (Returned {| rejected := filter unclassifiable logEvents; sent := 0 |},
           warned logEvents w)
  | _ :: _ =>
      match fetchRetry (request_for this (payload_of this logEvents))
              (warned logEvents w) with
      | (Returned _, w') =>
          (Returned {| rejected := filter unclassifiable logEvents;
                       sent := List.length (delivered_of this logEvents) |}, w')
      | (Thrown e, w') => (Thrown e, w')
      | (Unsettled, w') => (Unsettled, w')
      end
  end.
Proof.
  unfold sendEntries; unfold bind at 1; rewrite classify_loop; simpl.
  unfold payload_of, sendPayload.
  destruct (delivered_of this logEvents) as [|logEntry rest]; [reflexivity|].
  cbn [List.length Nat.eqb]; unfold bind, ret.
  now destruct (fetchRetry _ _) as [[resp|e|] w'].
Qed.

(** A fulfilled retry loop ends with the request that was answered in
    the 200-299 range. *)
Lemma loop_returned (fuel : nat) :
  forall (input : Request.t) (attempt : nat) (w w' : World)
         (response : Response.t),
    loop fuel input attempt w = (Returned response, w') ->
    exists before n,
      w'.(trace) = w.(trace) ++ before ++ [Fetched input]
      /\ w'.(fetches) = S n
      /\ intake n input = Resolves response
      /\ Response.ok response = true.
Proof.
  induction fuel as [|fuel IH]; intros input attempt w w' response Hrun;
    [discriminate|].
  rewrite loop_step in Hrun.
  destruct (intake (fetches w) input) as [error|r] eqn:Hanswer;
    unfold retryOn in Hrun.
  - destruct error as [m|m|n m]; try discriminate.
    destruct (attempt <? retries)%nat; [|discriminate].
    destruct (IH _ _ _ _ _ Hrun) as [before [n [Htrace Hrest]]].
    exists (Fetched input :: Slept (retryDelay attempt) :: before), n.
    split; [|assumption].
    rewrite Htrace; simpl; now rewrite <- !app_assoc.
  - destruct (Response.ok r) eqn:Hok; cbn [negb] in Hrun; [|discriminate].
    injection Hrun as <- <-.
    exists [], (fetches w); repeat split; assumption.
Qed.

(** The requests [sendEntries] adds to the trace all carry the payload of
    the events that pass the filter. *)
Lemma sendEntries_trace (this : DataDogLogger) (logEvents : list LogEvent.t)
    (w : World) :
  exists delta,
    (snd (sendEntries this logEvents w)).(trace) = w.(trace) ++ delta
    /\ forall request,
         In (Fetched request) delta ->
         request = request_for this (payload_of this logEvents).
Proof.
  rewrite sendEntries_eq.
  destruct (delivered_of this logEvents) as [|logEntry rest].
  - exists (map Warned (filter unclassifiable logEvents)).
    split; [reflexivity|].
    intros request Hin; apply in_map_iff in Hin.
    destruct Hin as [logEvent [Habs _]]; discriminate.
  - set (input := request_for this (payload_of this logEvents)).
    destruct (loop_trace retries input 0 (warned logEvents w))
      as [tail [Htrace Hall]].
    exists (map Warned (filter unclassifiable logEvents)
            ++ Fetched input :: tail).
    split.
    + change (fetchRetry input (warned logEvents w))
        with (loop (S retries) input 0 (warned logEvents w)).
      destruct (loop (S retries) input 0 (warned logEvents w))
        as [[resp|e|] w'];
        simpl in Htrace |- *; rewrite Htrace;
        unfold warned; simpl; now rewrite <- app_assoc.
    + intros request Hin. apply in_app_or in Hin.
      destruct Hin as [Hin|[Hin|Hin]].
      * apply in_map_iff in Hin.
        destruct Hin as [logEvent [Habs _]]; discriminate.
      * now injection Hin as <-.
      * rewrite Forall_forall in Hall.
        destruct (Hall _ Hin) as [Heq|[ms Heq]]; [|discriminate].
        now injection Heq as ->.
Qed.

(** [sendEntries] always settles. *)
Lemma sendEntries_settles (this : DataDogLogger) (logEvents : list LogEvent.t)
    (w : World) :
  fst (sendEntries this logEvents w) <> Unsettled.
Proof.
  rewrite sendEntries_eq.
  destruct (delivered_of this logEvents) as [|logEntry rest]; [discriminate|].
  destruct (fetchRetry_budget 0 (request_for this (payload_of this logEvents))
              (warned logEvents w)) as [_ Hset].
  destruct (fetchRetry _ _) as [[resp|e|] w']; simpl in *;
    [discriminate | discriminate | congruence].
Qed.

(** C6. When no record is to be sent (no event passes the filter, or
    there is no event at all), [sendEntries] returns without issuing any
    request: it only warns about the events it rejects. *)
Theorem empty_set_no_request (this : DataDogLogger)
    (logEvents : list LogEvent.t) (w : World) :
  delivered_of this logEvents = [] ->
  sendEntries this logEvents w
  = (Returned {| rejected := filter unclassifiable logEvents; sent := 0 |},
     {| fetches := w.(fetches);
        trace := w.(trace)
                 ++ map Warned (filter unclassifiable logEvents) |})
  /\ forall request,
       ~ In (Fetched request)
            (map Warned (filter unclassifiable logEvents)).
Proof.
  intro Hnone; rewrite sendEntries_eq, Hnone; split; [reflexivity|].
  intros request Hin; apply in_map_iff in Hin.
  destruct Hin as [logEvent [Habs _]]; discriminate.
Qed.

(** C7. Every entry of every request [sendEntries] posts carries the
    configured service, [ddsource = "aws-lambda"], [hostname = "lambda"],
    and a [ddtags] equal to [version:<version>] exactly when the options
    of the constructor held a (non-empty) version. *)
Theorem outbound_entry_shape (opts : Opts) (logEvents : list LogEvent.t)
    (w : World) :
  exists delta,
    (snd (sendEntries (constructor opts) logEvents w)).(trace)
    = w.(trace) ++ delta
    /\ forall request entry,
         In (Fetched request) delta ->
         In entry request.(Request.body) ->
         entry.(Entry.service) = opts.(service)
         /\ entry.(Entry.ddsource) = "aws-lambda"
         /\ entry.(Entry.hostname) = "lambda"
         /\ entry.(Entry.ddtags)
            = match opts.(version) with
              | Some v => if (v =? "")%string then None
                          else Some ("version:" ++ v)%string
              | None => None
              end.
Proof.
  destruct (sendEntries_trace (constructor opts) logEvents w)
    as [delta [Htrace Hreq]].
  exists delta; split; [assumption|].
  intros request entry Hin Hentry.
  rewrite (Hreq request Hin) in Hentry.
  unfold request_for, payload_of in Hentry; cbn [Request.body] in Hentry.
  apply in_map_iff in Hentry; destruct Hentry as [logEntry [<- _]].
  unfold spread, constructor; cbn.
  repeat split; try reflexivity.
  destruct (version opts) as [v|]; [|reflexivity].
  cbn; now destruct (v =? "")%string.
Qed.

(** C8. When [sendEntries] completes, its result gives the caller the
    rejected lines, as many as there are events without extractable
    fields, and the number of records sent, which is the size of the
    payload that the intake endpoint accepted (and 0 when nothing was
    posted). *)
Theorem completion_report (this : DataDogLogger) (logEvents : list LogEvent.t)
    (w w' : World) (result : SendResult) :
  sendEntries this logEvents w = (Returned result, w') ->
  List.length result.(rejected)
  = List.length (filter unclassifiable logEvents)
  /\ result.(sent) = List.length (payload_of this logEvents)
  /\ (result.(sent) = 0 -> w' = warned logEvents w)
  /\ (result.(sent) <> 0 ->
      exists before n response,
        w'.(trace)
        = w.(trace) ++ before
          ++ [Fetched (request_for this (payload_of this logEvents))]
        /\ w'.(fetches) = S n
        /\ intake n (request_for this (payload_of this logEvents))
           = Resolves response
        /\ Response.ok response = true).
Proof.
  rewrite sendEntries_eq; unfold payload_of; rewrite length_map.
  destruct (delivered_of this logEvents) as [|logEntry rest] eqn:Hdel.
  - intros [= <- <-]; cbn.
    repeat split; try reflexivity. intro Habs; now contradiction Habs.
  - destruct (fetchRetry _ _) as [[resp|e|] w1] eqn:Hrun; try discriminate.
    intros [= <- <-]; cbn [rejected sent].
    repeat split; try reflexivity; [discriminate|].
    intros _.
    destruct (loop_returned _ _ _ _ Hrun) as [before [n [Htrace Hrest]]].
    exists (map Warned (filter unclassifiable logEvents) ++ before), n, resp.
    split; [|assumption].
    rewrite Htrace; unfold warned; cbn [trace]; now rewrite <- !app_assoc.
Qed.

(** The three fates add up to the input. *)
Lemma fate_count (this : DataDogLogger) (logEvents : list LogEvent.t) :
  List.length logEvents
  = List.length (filter unclassifiable logEvents)
    + List.length (dropped_of this logEvents)
    + List.length (delivered_of this logEvents).
Proof.
  unfold dropped_of, delivered_of.
  induction logEvents as [|logEvent rest IH]; [reflexivity|].
  cbn [filter flat_map List.length]; rewrite length_app.
  rewrite <- (is_rejected_fate this).
  destruct (fate this logEvent);
    cbn [is_rejected is_dropped delivered List.length]; lia.
Qed.

(** C9. [sendEntries] disposes of each event in exactly one way. The
    rejected list holds, in input order, exactly the events whose entry
    cannot be created; every request posted carries, in input order, the
    entries of exactly the events whose level passes the filter; the
    other events are dropped; the three groups add up to the input and
    the count returned is the size of the payload. *)
Theorem sendEntries_partition (this : DataDogLogger)
    (logEvents : list LogEvent.t) (w w' : World) (result : SendResult) :
  sendEntries this logEvents w = (Returned result, w') ->
  result.(rejected) = filter unclassifiable logEvents
  /\ (forall logEvent w0,
        fst (createLogEntry this logEvent w0) = Returned None
        <-> unclassifiable logEvent = true)
  /\ (exists delta,
        w'.(trace) = w.(trace) ++ delta
        /\ forall request,
             In (Fetched request) delta ->
             request.(Request.body)
             = map (fun logEntry => spread logEntry this.(_baseEntry))
                   (flat_map (fun logEvent => delivered (fate this logEvent))
                             logEvents))
  /\ result.(sent)
     = List.length (flat_map (fun logEvent => delivered (fate this logEvent))
                             logEvents)
  /\ List.length logEvents
     = List.length result.(rejected)
       + List.length (dropped_of this logEvents)
       + result.(sent)
  /\ (forall logEvent,
        In logEvent logEvents ->
        match fate this logEvent with
        | IsRejected =>
            In logEvent result.(rejected)
            /\ ~ In logEvent (dropped_of this logEvents)
        | IsDropped _ =>
            ~ In logEvent result.(rejected)
            /\ In logEvent (dropped_of this logEvents)
        | IsDelivered logEntry =>
            ~ In logEvent result.(rejected)
            /\ ~ In logEvent (dropped_of this logEvents)
            /\ In logEntry (delivered_of this logEvents)
        end).
Proof.
  intro Hrun.
  assert (Hres : result = {| rejected := filter unclassifiable logEvents;
                             sent := List.length (delivered_of this logEvents) |}).
  { rewrite sendEntries_eq in Hrun.
    destruct (delivered_of this logEvents) as [|logEntry rest].
    - now injection Hrun as <- _.
    - destruct (fetchRetry _ _) as [[resp|e|] w1]; try discriminate.
      now injection Hrun as <- _. }
  subst result; cbn [rejected sent].
  split; [reflexivity|]. split.
  { intros logEvent w0; unfold createLogEntry, unclassifiable.
    destruct (extractFields logEvent); cbn; split;
      try reflexivity; discriminate. }
  split.
  { destruct (sendEntries_trace this logEvents w) as [delta [Htrace Hreq]].
    rewrite Hrun in Htrace; exists delta; split; [assumption|].
    intros request Hin; now rewrite (Hreq request Hin). }
  split; [reflexivity|]. split.
  { apply fate_count. }
  intros logEvent Hin.
  unfold dropped_of, delivered_of.
  destruct (fate this logEvent) as [|logEntry|logEntry] eqn:Hfate;
    rewrite !filter_In, <- ?(is_rejected_fate this), ?in_flat_map, ?Hfate;
    cbn [is_rejected is_dropped]; repeat split; try tauto;
    try (intros [_ Habs]; discriminate).
  exists logEvent; split; [assumption|]. rewrite Hfate; now left.
Qed.

(** *** The entry of one event *)

Lemma string_app_assoc (a b c : string) :
  ((a ++ b) ++ c = a ++ (b ++ c))%string.
Proof. induction a as [|x a IH]; simpl; [reflexivity | now rewrite IH]. Qed.

(** The third member of a serialised object sits between what precedes
    it and what follows it. *)
Lemma stringify_third_member (k1 k2 k3 : string) (v1 v2 v3 : JSON.value)
    (more : list (string * JSON.value)) :
  exists post,
    JSON.stringify (JSON.Obj ((k1, v1) :: (k2, v2) :: (k3, v3) :: more))
    = (("{" ++ JSON.quote k1 ++ ":" ++ JSON.stringify v1 ++ ","
            ++ JSON.quote k2 ++ ":" ++ JSON.stringify v2 ++ ",")
       ++ JSON.quote k3 ++ ":" ++ JSON.stringify v3 ++ post)%string.
Proof.
  cbn [JSON.stringify].
  match goal with
  | |- context [(_ ++ ":" ++ JSON.stringify v3 ++ ?tail)%string] =>
      exists (tail ++ "}")%string
  end.
  repeat (rewrite string_app_assoc; cbn [append]).
  reflexivity.
Qed.

(** C5. When the severity candidate of an event is not on the scale, the
    entry is routed and filtered at level "INFO", while the [level]
    member of the detail object serialised into its message is the
    candidate in lower case. *)
Theorem unknown_severity_is_INFO (this : DataDogLogger)
    (logEvent : LogEvent.t) (fields : Fields.t) (w : World) :
  extractFields logEvent = Some fields ->
  ~ In fields.(Fields.level) LOG_LEVELS ->
  exists members pre post,
    createLogEntry this logEvent w
    = (Returned (Some {| LogEntry.timestamp := logEvent.(LogEvent.timestamp);
                         LogEntry.message := JSON.stringify (JSON.Obj members);
                         LogEntry.level := "INFO" |}), w)
    /\ JSON.get "level" members
       = Some (JSON.Str (toLowerCase fields.(Fields.level)))
    /\ JSON.stringify (JSON.Obj members)
       = (pre ++ JSON.quote "level" ++ ":"
              ++ JSON.quote (toLowerCase fields.(Fields.level)) ++ post)%string.
Proof.
  intros Hfields Hlevel.
  unfold createLogEntry; rewrite Hfields.
  unfold entry_of; rewrite (indexOf_absent LOG_LEVELS _ Hlevel).
  cbn [Z.eqb Pos.eqb]. unfold text_of. cbn [app].
  match goal with
  | |- context [JSON.Obj (?m1 :: ?m2 :: (?k3, ?v3) :: ?more)] =>
      destruct (stringify_third_member (fst m1) (fst m2) k3 (snd m1) (snd m2) v3 more)
        as [post Hpost];
      exists (m1 :: m2 :: (k3, v3) :: more)
  end.
  eexists; exists post.
  split; [reflexivity|]. split; [reflexivity|].
  exact Hpost.
Qed.

(** *** Dead letters *)

Lemma undelivered_envelope (lines : list LogEvent.t)
    (records : list LogEntry.t) :
  undelivered (map RejectedLine lines ++ map Undelivered records) = records.
Proof.
  unfold undelivered; rewrite flat_map_app.
  replace (flat_map _ (map RejectedLine lines)) with (@nil LogEntry.t)
    by (induction lines as [|line lines IH]; [reflexivity | exact IH]).
  induction records as [|record records IH]; [reflexivity|].
  simpl in *; now rewrite IH.
Qed.

(** What forwarding a non-empty set adds to the trace. *)
Lemma forward_nonempty (items : list DeadLetterItem) (w : World) :
  items <> [] ->
  exists tail,
    forward items w
    = (Returned tt,
       {| fetches := w.(fetches);
          trace := w.(trace) ++ Enqueued items :: tail |})
    /\ Forall (fun ev => exists error, ev = EnqueueFailed error) tail.
Proof.
  intro Hne; destruct items as [|item items]; [congruence|].
  unfold forward, bind, perform.
  destruct (enqueue (item :: items)) as [error|].
  - exists [EnqueueFailed error]; unfold emit; cbn [fetches trace].
    rewrite <- app_assoc; split; [reflexivity|].
    constructor; [eauto | constructor].
  - exists []; unfold ret, emit; split; [reflexivity | constructor].
Qed.

(** C1. When the delivery of the [N] surviving records raises, the
    pipeline forwards a dead-letter message that holds all [N] of them,
    in order, together with every rejected line; the message is enqueued
    after the failed delivery and before the pipeline raises, and what it
    raises is the delivery error, whether or not the queue took the
    message. *)
Theorem dead_letter_completeness (this : DataDogLogger)
    (logEvents : list LogEvent.t) (w w1 w2 : World)
    (lines : list LogEvent.t) (accepted : list LogEntry.t) (error : JsError) :
  extracting this logEvents w = (Returned (lines, accepted), w1) ->
  deliver this (filtering this accepted) w1 = (Thrown error, w2) ->
  exists envelope tail,
    pipeline this logEvents w
    = (Thrown error,
       {| fetches := w2.(fetches);
          trace := w2.(trace) ++ Enqueued envelope :: tail |})
    /\ undelivered envelope = filtering this accepted
    /\ List.length (undelivered envelope)
       = List.length (filtering this accepted)
    /\ filtering this accepted <> []
    /\ (forall line, In line lines -> In (RejectedLine line) envelope)
    /\ Forall (fun ev => exists failure, ev = EnqueueFailed failure) tail.
Proof.
  intros Hextract Hdeliver.
  assert (Hsome : filtering this accepted <> []).
  { intro Hnil; rewrite Hnil in Hdeliver; discriminate. }
  set (envelope := map RejectedLine lines
                   ++ map Undelivered (filtering this accepted)).
  assert (Hne : envelope <> []).
  { unfold envelope; destruct (filtering this accepted); [congruence|].
    intro Habs; apply app_eq_nil in Habs; destruct Habs; discriminate. }
  destruct (forward_nonempty w2 Hne) as [tail [Hforward Htail]].
  exists envelope, tail.
  unfold pipeline; unfold bind at 1; rewrite Hextract.
  unfold bind at 1, try_catch; unfold bind at 1; rewrite Hdeliver.
  unfold ret at 1; unfold bind; fold envelope; rewrite Hforward.
  split; [reflexivity|].
  unfold envelope; rewrite undelivered_envelope.
  repeat split; try assumption.
  intros line Hin; apply in_or_app; left; now apply in_map.
Qed.

(* ------------------------------------------------------------------ *)
(** ** Further properties of the delivery client *)

(** *** The retry loop, whatever the endpoint does *)

(** A run of the loop: [k] transport failures, each followed by its wait,
    then the request whose answer settles the promise. *)
Lemma loop_run (fuel : nat) :
  forall (input : Request.t) (attempt : nat) (w : World),
    retries <= fuel + attempt ->
    attempt <= retries ->
    exists k,
      attempt + k <= retries
      /\ (forall n, n < k ->
            exists m,
              intake (w.(fetches) + n) input = Rejects (FetchError m))
      /\ (forall m, intake (w.(fetches) + k) input = Rejects (FetchError m) ->
            attempt + k = retries)
      /\ loop (S fuel) input attempt w
         = (settle (intake (w.(fetches) + k) input),
            {| fetches := w.(fetches) + k + 1;
               trace := w.(trace) ++ backoff input attempt k
                        ++ [Fetched input] |}).
Proof.
  assert (Hstop : forall f input attempt w,
             retryOn attempt (intake (fetches w) input) <> inr true ->
             (forall m, intake (fetches w) input = Rejects (FetchError m) ->
                attempt = retries) ->
             attempt <= retries ->
             exists k,
               attempt + k <= retries
               /\ (forall n, n < k ->
                     exists m,
                       intake (fetches w + n) input = Rejects (FetchError m))
               /\ (forall m,
                     intake (fetches w + k) input = Rejects (FetchError m) ->
                     attempt + k = retries)
               /\ loop (S f) input attempt w
                  = (settle (intake (fetches w + k) input),
                     {| fetches := fetches w + k + 1;
                        trace := trace w ++ backoff input attempt k
                                 ++ [Fetched input] |})).
  { intros f input attempt w Hno Hlast Hle; exists 0.
    rewrite !Nat.add_0_r.
    split; [assumption|]. split; [intros n Hn; lia|]. split; [assumption|].
    rewrite loop_step; unfold fetched, backoff; cbn [seq flat_map app].
    replace (fetches w + 1) with (S (fetches w)) by lia.
    destruct (intake (fetches w) input) as [[m|m|c m]|r];
      unfold retryOn, settle in *.
    - destruct (attempt <? retries)%nat; [congruence | reflexivity].
    - reflexivity.
    - reflexivity.
    - destruct (Response.ok r); reflexivity. }
  induction fuel as [|fuel IH]; intros input attempt w Hfuel Hle.
  - apply Hstop; [| |assumption].
    + destruct (intake (fetches w) input) as [[m|m|c m]|r]; unfold retryOn;
        try discriminate.
      * replace (attempt <? retries)%nat with false
          by (symmetry; apply Nat.ltb_ge; lia).
        discriminate.
      * destruct (negb (Response.ok r)); discriminate.
    + intros; lia.
  - destruct (retryOn attempt (intake (fetches w) input)) as [e|[|]] eqn:Hon.
    + apply Hstop; [congruence| |assumption].
      intros m Hm; rewrite Hm in Hon; discriminate.
    + assert (Hfail : exists m,
                 intake (fetches w) input = Rejects (FetchError m)
                 /\ attempt < retries).
      { destruct (intake (fetches w) input) as [[m|m|c m]|r];
          unfold retryOn in Hon; try discriminate.
        - exists m; split; [reflexivity|].
          apply Nat.ltb_lt; congruence.
        - destruct (negb (Response.ok r)); discriminate. }
      destruct Hfail as [m0 [Hm0 Hlt]].
      destruct (IH input (S attempt)
                  (emit (Slept (retryDelay attempt)) (fetched input w)))
        as [k [Hk [Hfails [Hlast Hrun]]]]; [lia | lia |].
      cbn [emit fetched fetches trace] in Hk, Hfails, Hlast, Hrun.
      exists (S k).
      split; [lia|]. split; [|split].
      * intros n Hn; destruct n as [|n].
        -- exists m0; now rewrite Nat.add_0_r.
        -- replace (fetches w + S n) with (S (fetches w) + n) by lia.
           apply Hfails; lia.
      * intros m Hm.
        replace (fetches w + S k) with (S (fetches w) + k) in Hm by lia.
        specialize (Hlast m Hm); lia.
      * rewrite loop_step, Hon, Hrun.
        replace (fetches w + S k) with (S (fetches w) + k) by lia.
        unfold backoff; cbn [seq flat_map app].
        now rewrite <- !app_assoc.
    + apply Hstop; [congruence| |assumption].
      intros m Hm; rewrite Hm in Hon; unfold retryOn in Hon.
      injection Hon as Hon; apply Nat.ltb_ge in Hon; lia.
Qed.

Lemma fetchRetry_run (input : Request.t) (w : World) :
  exists k,
    k <= retries
    /\ (forall n, n < k ->
          exists m, intake (w.(fetches) + n) input = Rejects (FetchError m))
    /\ (forall m, intake (w.(fetches) + k) input = Rejects (FetchError m) ->
          k = retries)
    /\ fetchRetry input w
       = (settle (intake (w.(fetches) + k) input),
          {| fetches := w.(fetches) + k + 1;
             trace := w.(trace) ++ backoff input 0 k ++ [Fetched input] |}).
Proof.
  destruct (@loop_run retries input 0 w) as [k Hk]; [lia | lia |].
  exists k; exact Hk.
Qed.

(** X1. Whatever the endpoint does, [fetchRetry] issues at least one and at
    most [retries + 1] requests, all of them the same; it waits
    [retryDelay n] after the failed attempt [n] and never after the last
    request; and it issues a further request only after a [FetchError]. *)
Theorem fetchRetry_requests (input : Request.t) (w : World) :
  exists k,
    k <= retries
    /\ (snd (fetchRetry input w)).(fetches) = w.(fetches) + k + 1
    /\ (snd (fetchRetry input w)).(trace)
       = w.(trace)
         ++ flat_map (fun n => [Fetched input; Slept (retryDelay n)]) (seq 0 k)
         ++ [Fetched input]
    /\ forall n, n < k ->
         exists m, intake (w.(fetches) + n) input = Rejects (FetchError m).
Proof.
  destruct (fetchRetry_run input w) as [k [Hk [Hfails [_ Hrun]]]].
  exists k; rewrite Hrun; cbn [snd fetches trace].
  repeat split; try assumption; reflexivity.
Qed.

(** X2. The response [fetchRetry] resolves to is always in the 200-299
    range, and it is the answer to the last request issued. *)
Theorem fetchRetry_resolves_ok (input : Request.t) (w w' : World)
    (response : Response.t) :
  fetchRetry input w = (Returned response, w') ->
  Response.ok response = true
  /\ exists n,
       w'.(fetches) = S n
       /\ intake n input = Resolves response
       /\ exists before,
            w'.(trace) = w.(trace) ++ before ++ [Fetched input].
Proof.
  intro Hrun.
  destruct (@loop_returned (S retries) input 0 w w' response Hrun)
    as [before [n [Htrace [Hn [Hanswer Hok]]]]].
  split; [assumption|].
  exists n; repeat split; try assumption. now exists before.
Qed.

(** X3. After [k] transport failures within the bound, a response in the
    200-299 range is what [fetchRetry] resolves to, [k + 1] requests
    having been issued. *)
Theorem success_after_transport_failures (input : Request.t) (w : World)
    (k : nat) (msg : nat -> string) (response : Response.t) :
  k <= retries ->
  (forall n, n < k ->
     intake (w.(fetches) + n) input = Rejects (FetchError (msg n))) ->
  intake (w.(fetches) + k) input = Resolves response ->
  Response.ok response = true ->
  fetchRetry input w
  = (Returned response,
     {| fetches := w.(fetches) + k + 1;
        trace := w.(trace)
                 ++ flat_map (fun n => [Fetched input; Slept (retryDelay n)])
                             (seq 0 k)
                 ++ [Fetched input] |}).
Proof.
  intros Hk Hfail Hresp Hok.
  rewrite (@fetchRetry_after_failures k input w msg) by assumption.
  rewrite loop_step; cbn [fetches trace].
  rewrite Hresp; unfold retryOn; rewrite Hok; cbn [negb].
  unfold fetched, backoff; cbn [fetches trace].
  f_equal. f_equal; [lia|]. now rewrite <- app_assoc.
Qed.

(** X4. An error that is not a [FetchError] is raised as it is, on
    whichever attempt it occurs, and the request that met it is the last
    one issued. *)
Theorem other_error_not_retried (input : Request.t) (w : World) (k : nat)
    (msg : nat -> string) (error : JsError) :
  k <= retries ->
  (forall n, n < k ->
     intake (w.(fetches) + n) input = Rejects (FetchError (msg n))) ->
  intake (w.(fetches) + k) input = Rejects error ->
  (forall m, error <> FetchError m) ->
  fetchRetry input w
  = (Thrown error,
     {| fetches := w.(fetches) + k + 1;
        trace := w.(trace)
                 ++ flat_map (fun n => [Fetched input; Slept (retryDelay n)])
                             (seq 0 k)
                 ++ [Fetched input] |}).
Proof.
  intros Hk Hfail Herr Hother.
  rewrite (@fetchRetry_after_failures k input w msg) by assumption.
  rewrite loop_step; cbn [fetches trace].
  rewrite Herr; unfold retryOn.
  destruct error as [m|m|c m]; [now contradiction (Hother m)| |];
    unfold fetched, backoff; cbn [fetches trace];
    (f_equal; f_equal; [lia | now rewrite <- app_assoc]).
Qed.

(** X5. The retry loop ends: the wrapper has no bound of its own, but with
    this [retryOn] it never makes use of more than [retries + 1] calls, and
    its promise is always settled. *)
Theorem retry_loop_terminates (fuel : nat) (input : Request.t) (w : World) :
  retries < fuel ->
  wrapFetch fetch retryDelay retryOn fuel input w = fetchRetry input w
  /\ fst (fetchRetry input w) <> Unsettled.
Proof.
  intro Hfuel.
  replace fuel with (S retries + (fuel - S retries)) by lia.
  apply (@loop_budget retries (fuel - S retries) input 0 w); lia.
Qed.

(** *** The threshold and the filter *)

Lemma upper_lower_char (c : ascii) : upper_char (lower_char c) = upper_char c.
Proof. destruct c as [[] [] [] [] [] [] [] []]; reflexivity. Qed.

Lemma upper_upper_char (c : ascii) : upper_char (upper_char c) = upper_char c.
Proof. destruct c as [[] [] [] [] [] [] [] []]; reflexivity. Qed.

Lemma is_ascii_lower_char (c : ascii) :
  (nat_of_ascii (lower_char c) <? 128)%nat = (nat_of_ascii c <? 128)%nat.
Proof. destruct c as [[] [] [] [] [] [] [] []]; reflexivity. Qed.

Lemma is_ascii_upper_char (c : ascii) :
  (nat_of_ascii (upper_char c) <? 128)%nat = (nat_of_ascii c <? 128)%nat.
Proof. destruct c as [[] [] [] [] [] [] [] []]; reflexivity. Qed.

Lemma is_ascii_lower (s : string) : is_ascii (ascii_lower s) = is_ascii s.
Proof.
  unfold ascii_lower; induction s as [|c s IH]; simpl; [reflexivity|].
  now rewrite IH, is_ascii_lower_char.
Qed.

Lemma is_ascii_upper (s : string) : is_ascii (ascii_upper s) = is_ascii s.
Proof.
  unfold ascii_upper; induction s as [|c s IH]; simpl; [reflexivity|].
  now rewrite IH, is_ascii_upper_char.
Qed.

Lemma ascii_upper_lower (s : string) :
  ascii_upper (ascii_lower s) = ascii_upper s.
Proof.
  unfold ascii_upper, ascii_lower.
  induction s as [|c s IH]; simpl; [reflexivity|].
  now rewrite IH, upper_lower_char.
Qed.

Lemma ascii_upper_idempotent (s : string) :
  ascii_upper (ascii_upper s) = ascii_upper s.
Proof.
  unfold ascii_upper.
  induction s as [|c s IH]; simpl; [reflexivity|].
  now rewrite IH, upper_upper_char.
Qed.

(** On a string of ASCII characters a change of case does not change the
    upper-cased string. *)
Lemma toUpperCase_after_case_ascii (s : string) :
  is_ascii s = true ->
  toUpperCase (toLowerCase s) = toUpperCase s
  /\ toUpperCase (toUpperCase s) = toUpperCase s.
Proof.
  intro Hs; unfold JsString.toUpperCase, JsString.toLowerCase; rewrite Hs.
  rewrite is_ascii_lower, is_ascii_upper, Hs.
  now rewrite ascii_upper_lower, ascii_upper_idempotent.
Qed.

(** Two strings that are the same names of the scale, if any, have the
    same position. *)
Lemma indexOf_same_name (a b : string) :
  (forall l, In l LOG_LEVELS -> (a = l <-> b = l)) ->
  indexOf LOG_LEVELS a = indexOf LOG_LEVELS b.
Proof.
  intro Hsame; destruct (on_scale a) eqn:Ha.
  - apply on_scale_In in Ha.
    now rewrite <- (proj1 (Hsame a Ha) eq_refl).
  - apply on_scale_false in Ha.
    rewrite (indexOf_absent LOG_LEVELS a Ha).
    symmetry; apply indexOf_absent; intro Hb.
    apply Ha; now rewrite (proj2 (Hsame b Hb) eq_refl).
Qed.

(** The names of the scale are in upper case. *)
Lemma scale_upper (l : string) : In l LOG_LEVELS -> toUpperCase l = l.
Proof.
  simpl; intros [<-|[<-|[<-|[<-|[<-|[<-|[<-|[]]]]]]]]; reflexivity.
Qed.

Lemma indexOf_on_scale (l : string) :
  indexOf LOG_LEVELS l <> (-1)%Z -> In l LOG_LEVELS.
Proof.
  intro Hi; destruct (on_scale l) eqn:Hl; [now apply on_scale_In|].
  now apply on_scale_false, indexOf_absent in Hl.
Qed.

Lemma entry_level_on_scale (this : DataDogLogger) (logEvent : LogEvent.t)
    (fields : Fields.t) :
  In (entry_of this logEvent fields).(LogEntry.level) LOG_LEVELS.
Proof.
  unfold entry_of; cbn [LogEntry.level].
  destruct (Z.eqb_spec (indexOf LOG_LEVELS (Fields.level fields)) (-1)).
  - simpl; tauto.
  - now apply indexOf_on_scale.
Qed.

(** X6. The threshold is read without regard to case: the same threshold
    written in lower case, in upper case or in mixed case gives the same
    logger, hence the same filter. For a threshold of ASCII characters
    this holds as it is; for any other threshold it holds when, by the
    Unicode tables, a change of case does not change which name of the
    scale, if any, the threshold upper-cases to. *)
Theorem threshold_case_insensitive (opts : Opts) (threshold : string) :
  (is_ascii threshold = false ->
   forall l, In l LOG_LEVELS ->
     (toUpperCase (toLowerCase threshold) = l <-> toUpperCase threshold = l)
     /\ (toUpperCase (toUpperCase threshold) = l
         <-> toUpperCase threshold = l)) ->
  constructor (with_level opts (toLowerCase threshold))
  = constructor (with_level opts threshold)
  /\ constructor (with_level opts (toUpperCase threshold))
     = constructor (with_level opts threshold).
Proof.
  intro Htables.
  assert (Hsame :
    indexOf LOG_LEVELS (toUpperCase (toLowerCase threshold))
    = indexOf LOG_LEVELS (toUpperCase threshold)
    /\ indexOf LOG_LEVELS (toUpperCase (toUpperCase threshold))
       = indexOf LOG_LEVELS (toUpperCase threshold)).
  { destruct (is_ascii threshold) eqn:Hascii.
    - destruct (toUpperCase_after_case_ascii threshold Hascii) as [-> ->].
      now split.
    - split; apply indexOf_same_name; intros l Hl;
        now destruct (Htables eq_refl l Hl). }
  destruct Hsame as [Hlower Hupper].
  unfold constructor, with_level; cbn [level default apiKey funcName service
                                        version logStream apiUrl].
  now rewrite Hlower, Hupper.
Qed.

(** X7. The filter is upward closed on the scale, and a record at level
    ERROR passes whatever the threshold is. *)
Theorem filter_upward_closed (opts : Opts) :
  (forall l l',
     shouldSendLevel (constructor opts) l = true ->
     (indexOf LOG_LEVELS l <= indexOf LOG_LEVELS l')%Z ->
     shouldSendLevel (constructor opts) l' = true)
  /\ shouldSendLevel (constructor opts) "ERROR" = true.
Proof.
  pose proof (minLevel_range opts) as Hrange.
  unfold shouldSendLevel; split.
  - intros l l'; rewrite !Z.leb_le; lia.
  - rewrite Z.leb_le; change (indexOf LOG_LEVELS "ERROR") with 6%Z; lia.
Qed.

(** X8. Without a [level] option the threshold is INFO: the levels sent
    are exactly INFO, WARN and ERROR. *)
Theorem default_threshold_is_INFO (opts : Opts) (l : string) :
  opts.(level) = None ->
  (shouldSendLevel (constructor opts) l = true
   <-> l = "INFO" \/ l = "WARN" \/ l = "ERROR").
Proof.
  intro Hnone; unfold shouldSendLevel.
  rewrite minLevel_constructor, Hnone; cbn [default].
  change (indexOf LOG_LEVELS
            (if on_scale (toUpperCase "info") then toUpperCase "info"
             else "INFO")) with 4%Z.
  rewrite Z.leb_le; unfold indexOf, LOG_LEVELS; cbn [indexOf_from].
  repeat match goal with
         | |- context [String.eqb ?a l] =>
             destruct (String.eqb_spec a l) as [<-|?]
         end; cbn; split; intro Hsent;
    try lia; try tauto;
    try (destruct Hsent as [Hsent|[Hsent|Hsent]]; congruence).
Qed.

(** X9. The level of every entry [createLogEntry] builds is one of the
    seven names of the scale; it is the extracted level when that is one
    of them. *)
Theorem entry_level_is_on_scale (this : DataDogLogger) (logEvent : LogEvent.t)
    (w : World) (logEntry : LogEntry.t) :
  fst (createLogEntry this logEvent w) = Returned (Some logEntry) ->
  In logEntry.(LogEntry.level) LOG_LEVELS
  /\ forall fields,
       extractFields logEvent = Some fields ->
       In fields.(Fields.level) LOG_LEVELS ->
       logEntry.(LogEntry.level) = fields.(Fields.level).
Proof.
  unfold createLogEntry.
  destruct (extractFields logEvent) as [fields|]; [|discriminate].
  intros [= <-]; split; [apply entry_level_on_scale|].
  intros fields' [= <-] Hin; unfold entry_of; cbn [LogEntry.level].
  apply indexOf_present in Hin.
  destruct (Z.eqb_spec (indexOf LOG_LEVELS (Fields.level fields)) (-1));
    [lia | reflexivity].
Qed.

(** X10. The upper-casing of the level in [sendEntries] changes nothing:
    the entries posted are the entries created, in input order, whose own
    level passes the filter. *)
Theorem delivered_are_filtered_entries (this : DataDogLogger)
    (logEvents : list LogEvent.t) :
  delivered_of this logEvents
  = filter (fun logEntry => shouldSendLevel this logEntry.(LogEntry.level))
           (accepted_of this logEvents).
Proof.
  unfold delivered_of, accepted_of, fate.
  induction logEvents as [|logEvent rest IH]; [reflexivity|].
  cbn [flat_map]; rewrite filter_app, <- IH; f_equal.
  destruct (extractFields logEvent) as [fields|]; [|reflexivity].
  cbv zeta; cbn [filter].
  rewrite (scale_upper (entry_level_on_scale this logEvent fields)).
  now destruct (shouldSendLevel this _).
Qed.

(** X11. An event whose severity candidate is not on the scale is
    delivered exactly when the threshold is INFO or lower. *)
Theorem unknown_severity_delivery (this : DataDogLogger)
    (logEvent : LogEvent.t) (fields : Fields.t) :
  extractFields logEvent = Some fields ->
  ~ In fields.(Fields.level) LOG_LEVELS ->
  (fate this logEvent = IsDelivered (entry_of this logEvent fields)
   <-> (this.(_minLevel) <= 4)%Z)
  /\ (fate this logEvent = IsDropped (entry_of this logEvent fields)
      <-> (4 < this.(_minLevel))%Z).
Proof.
  intros Hfields Hlevel; unfold fate; rewrite Hfields; cbv zeta.
  assert (Hinfo : LogEntry.level (entry_of this logEvent fields) = "INFO").
  { unfold entry_of; cbn [LogEntry.level].
    now rewrite (indexOf_absent LOG_LEVELS _ Hlevel). }
  rewrite Hinfo; unfold shouldSendLevel.
  change (indexOf LOG_LEVELS (toUpperCase "INFO")) with 4%Z.
  destruct (Z.leb_spec (_minLevel this) 4) as [Hle|Hgt]; split; split;
    intro Hcase; try reflexivity; try discriminate; try lia.
Qed.

(** *** Strings outside ASCII *)

(** The threshold [ſilly], written with U+017F (the bytes C5 BF): the
    tables upper-case it to SILLY, and the logger stores the position of
    SILLY. *)
Example threshold_with_long_s (opts : Opts) :
  let threshold := String "197" (String "191" "illy") in
  unicode.(upper) threshold = "SILLY" ->
  (constructor (with_level opts threshold)).(_minLevel) = 1%Z.
Proof.
  intros threshold Hupper; unfold constructor, with_level.
  cbn [level default _minLevel]; unfold JsString.toUpperCase.
  change (is_ascii threshold) with false; cbv iota.
  now rewrite Hupper.
Qed.

(** The candidate [ÀB], written with U+00C0 (the bytes C3 80): the detail
    object holds what the tables lower-case it to. *)
Example candidate_with_A_grave (this : DataDogLogger) (logEvent : LogEvent.t)
    (fields : Fields.t) (lowered : string) :
  fields.(Fields.level) = String "195" (String "128" "B") ->
  unicode.(lower) fields.(Fields.level) = lowered ->
  JSON.get "level"
    match text_of this fields with
    | JSON.Obj members => members
    | JSON.Str _ => []
    end
  = Some (JSON.Str lowered).
Proof.
  intros Hlevel Hlower; unfold text_of; cbn [app JSON.get String.eqb].
  cbn. unfold JsString.toLowerCase; rewrite <- Hlower, Hlevel.
  reflexivity.
Qed.

(** *** What [sendEntries] does to the world *)

(** The result of a fulfilled [sendEntries]. *)
Lemma sendEntries_result (this : DataDogLogger) (logEvents : list LogEvent.t)
    (w w' : World) (result : SendResult) :
  sendEntries this logEvents w = (Returned result, w') ->
  result = {| rejected := filter unclassifiable logEvents;
              sent := List.length (delivered_of this logEvents) |}.
Proof.
  rewrite sendEntries_eq.
  destruct (delivered_of this logEvents) as [|logEntry rest].
  - now intros [= <- _].
  - destruct (fetchRetry _ _) as [[resp|e|] w1]; try discriminate.
    now intros [= <- _].
Qed.

(** X12. [sendEntries] is rejected exactly when there is an entry to send
    and its delivery is rejected, and then with the error of the delivery,
    unchanged; the events it had rejected are not reported in that case. *)
Theorem sendEntries_raises_delivery_error (this : DataDogLogger)
    (logEvents : list LogEvent.t) (w w' : World) (error : JsError) :
  sendEntries this logEvents w = (Thrown error, w')
  <-> delivered_of this logEvents <> []
      /\ fetchRetry (request_for this (payload_of this logEvents))
           (warned logEvents w)
         = (Thrown error, w').
Proof.
  rewrite sendEntries_eq.
  destruct (delivered_of this logEvents) as [|logEntry rest] eqn:Hdel.
  - split; [discriminate | intros [Habs _]; congruence].
  - destruct (fetchRetry _ _) as [[resp|e|] w1]; split;
      try discriminate; try (intros [_ Habs]; discriminate).
    + intros [= <- <-]; split; [discriminate | reflexivity].
    + now intros [_ [= <- <-]].
Qed.

(** X13. [sendEntries] first warns about every event it rejects, once each
    and in input order, and only then posts: one batch, in at least one and
    at most [retries + 1] identical requests separated by the waits of the
    retry loop. *)
Theorem sendEntries_effects (this : DataDogLogger)
    (logEvents : list LogEvent.t) (w : World) :
  exists k,
    k <= retries
    /\ (snd (sendEntries this logEvents w)).(trace)
       = w.(trace)
         ++ map Warned (filter unclassifiable logEvents)
         ++ match delivered_of this logEvents with
            | [] => []
            | _ :: _ =>
                backoff (request_for this (payload_of this logEvents)) 0 k
                ++ [Fetched (request_for this (payload_of this logEvents))]
            end
    /\ (snd (sendEntries this logEvents w)).(fetches)
       = w.(fetches)
         + match delivered_of this logEvents with
           | [] => 0
           | _ :: _ => k + 1
           end.
Proof.
  rewrite sendEntries_eq.
  destruct (delivered_of this logEvents) as [|logEntry rest].
  - exists 0; cbn [snd warned trace fetches].
    rewrite app_nil_r, Nat.add_0_r; repeat split; lia.
  - destruct (fetchRetry_run (request_for this (payload_of this logEvents))
                (warned logEvents w)) as [k [Hk [_ [_ Hrun]]]].
    exists k; rewrite Hrun.
    split; [assumption|].
    destruct (settle _) as [resp|e|]; cbn [snd warned trace fetches];
      rewrite <- ?app_assoc; split; try reflexivity; lia.
Qed.

(** X14. Every request [sendEntries] issues is a POST to
    [<apiUrl>/api/v2/logs], the intake host of DataDog when no [apiUrl] is
    configured, that announces gzipped JSON and carries the configured API
    key in its [DD-API-KEY] header. *)
Theorem request_shape (opts : Opts) (logEvents : list LogEvent.t) (w : World) :
  exists delta,
    (snd (sendEntries (constructor opts) logEvents w)).(trace)
    = w.(trace) ++ delta
    /\ forall request,
         In (Fetched request) delta ->
         request.(Request.url)
         = (match opts.(apiUrl) with
            | Some url => url
            | None => "https://http-intake.logs.datadoghq.com"
            end ++ "/api/v2/logs")%string
         /\ request.(Request.method) = "POST"
         /\ request.(Request.headers)
            = [ ("content-type", "application/json");
                ("content-encoding", "gzip");
                ("DD-API-KEY", opts.(apiKey)) ].
Proof.
  destruct (sendEntries_trace (constructor opts) logEvents w)
    as [delta [Htrace Hreq]].
  exists delta; split; [assumption|].
  intros request Hin; rewrite (Hreq request Hin).
  unfold request_for, constructor; cbn.
  now destruct (apiUrl opts).
Qed.

(** X19. [sendEntries] never posts an empty batch: every request it
    issues carries at least one entry, and as many as there are events
    whose level passes the filter. *)
Theorem no_empty_payload (this : DataDogLogger) (logEvents : list LogEvent.t)
    (w : World) :
  exists delta,
    (snd (sendEntries this logEvents w)).(trace) = w.(trace) ++ delta
    /\ forall request,
         In (Fetched request) delta ->
         request.(Request.body) <> []
         /\ List.length request.(Request.body)
            = List.length (delivered_of this logEvents).
Proof.
  destruct (delivered_of this logEvents) as [|logEntry rest] eqn:Hdel.
  - exists (map Warned (filter unclassifiable logEvents)).
    rewrite sendEntries_eq, Hdel; split; [reflexivity|].
    intros request Hin; apply in_map_iff in Hin.
    destruct Hin as [logEvent [Habs _]]; discriminate.
  - destruct (sendEntries_trace this logEvents w) as [delta [Htrace Hreq]].
    exists delta; split; [assumption|].
    intros request Hin; rewrite (Hreq request Hin).
    unfold request_for, payload_of; cbn [Request.body].
    rewrite Hdel, length_map; split; [discriminate | reflexivity].
Qed.

(** X15. Batches compose: when the two halves of a batch and the whole
    batch are each sent with success, the whole reports the rejected
    events of the first half followed by those of the second, its count is
    the sum of theirs, and its payload is theirs, one after the other. *)
Theorem sendEntries_app (this : DataDogLogger) (first second : list LogEvent.t)
    (w1 w1' w2 w2' w w' : World) (r1 r2 r : SendResult) :
  sendEntries this first w1 = (Returned r1, w1') ->
  sendEntries this second w2 = (Returned r2, w2') ->
  sendEntries this (first ++ second) w = (Returned r, w') ->
  r.(rejected) = r1.(rejected) ++ r2.(rejected)
  /\ r.(sent) = r1.(sent) + r2.(sent)
  /\ payload_of this (first ++ second)
     = payload_of this first ++ payload_of this second.
Proof.
  intros H1 H2 H.
  rewrite (sendEntries_result _ _ _ H1), (sendEntries_result _ _ _ H2),
    (sendEntries_result _ _ _ H).
  cbn [rejected sent]; unfold payload_of, delivered_of.
  now rewrite filter_app, flat_map_app, length_app, map_app.
Qed.

(** *** The detail object of an entry *)

Lemma all_chars_app (p : ascii -> bool) (a b : string) :
  all_chars p (a ++ b)%string = all_chars p a && all_chars p b.
Proof.
  induction a as [|c a IH]; simpl; [reflexivity|].
  now rewrite IH, andb_assoc.
Qed.

Lemma escape_char_not_C0 (c : ascii) :
  all_chars not_C0_control (JSON.escape_char c) = true.
Proof. destruct c as [[] [] [] [] [] [] [] []]; reflexivity. Qed.

Lemma quote_not_C0 (s : string) : all_chars not_C0_control (JSON.quote s) = true.
Proof.
  unfold JSON.quote; rewrite !all_chars_app.
  replace (all_chars not_C0_control (JSON.escape s)) with true; [reflexivity|].
  induction s as [|c s IH]; [reflexivity|].
  cbn [JSON.escape]; now rewrite all_chars_app, escape_char_not_C0, <- IH.
Qed.

(** On ASCII text [trimEnd] removes a run of white space from the end. *)
Lemma ascii_trimEnd_split (s : string) :
  exists ws, s = (ascii_trimEnd s ++ ws)%string /\ all_chars is_space ws = true.
Proof.
  induction s as [|c s [ws [Hs Hws]]]; [now exists ""%string|].
  cbn [ascii_trimEnd].
  destruct (ascii_trimEnd s) as [|k kept] eqn:Hkept.
  - destruct (is_space c) eqn:Hc.
    + exists (String c ws); cbn in Hs |- *; rewrite Hc, Hws.
      split; [now rewrite Hs | reflexivity].
    + exists ws; cbn in Hs |- *; split; [now rewrite <- Hs | assumption].
  - exists ws; split; [|assumption].
    cbn in Hs |- *; now rewrite <- Hs.
Qed.

(** What [trimEnd] leaves does not end in white space. *)
Lemma ascii_trimEnd_last (s : string) :
  forall pre c,
    ascii_trimEnd s = (pre ++ String c "")%string -> is_space c = false.
Proof.
  induction s as [|x s IH]; intros pre c Heq.
  - destruct pre; discriminate.
  - cbn [ascii_trimEnd] in Heq.
    destruct (ascii_trimEnd s) as [|k kept] eqn:Hkept.
    + destruct (is_space x) eqn:Hx.
      * destruct pre; discriminate.
      * destruct pre as [|y pre]; cbn in Heq.
        -- now injection Heq as <-.
        -- injection Heq as _ Habs; destruct pre; discriminate.
    + destruct pre as [|y pre]; cbn in Heq; [discriminate|].
      injection Heq as _ Hrest. now apply (IH pre c).
Qed.

(** X16. When the extracted message is ASCII text, the [message] member
    of the detail object is that message without its trailing white
    space (TAB, LF, VT, FF, CR, SPACE), and nothing else is taken from
    it. *)
Theorem detail_message_trimmed (this : DataDogLogger) (logEvent : LogEvent.t)
    (fields : Fields.t) (w : World) :
  extractFields logEvent = Some fields ->
  is_ascii fields.(Fields.message) = true ->
  exists members text trailing,
    createLogEntry this logEvent w
    = (Returned (Some {| LogEntry.timestamp := logEvent.(LogEvent.timestamp);
                         LogEntry.message := JSON.stringify (JSON.Obj members);
                         LogEntry.level :=
                           (entry_of this logEvent fields).(LogEntry.level) |}),
       w)
    /\ JSON.get "message" members = Some (JSON.Str text)
    /\ fields.(Fields.message) = (text ++ trailing)%string
    /\ all_chars is_space trailing = true
    /\ forall pre c, text = (pre ++ String c "")%string -> is_space c = false.
Proof.
  intros Hfields Hascii; unfold createLogEntry; rewrite Hfields.
  destruct (ascii_trimEnd_split fields.(Fields.message))
    as [trailing [Hsplit Hws]].
  unfold entry_of, text_of, JsString.trimEnd; rewrite Hascii.
  cbn [app LogEntry.level].
  eexists; exists (ascii_trimEnd fields.(Fields.message)), trailing.
  split; [reflexivity|]. split; [reflexivity|].
  split; [assumption|]. split; [assumption|].
  apply ascii_trimEnd_last.
Qed.

(** X17. The detail object names the invocation by the request id, or by
    ["n/a"] when there is none or an empty one, and the function by the
    configured [funcName]; it has a [timestamp] member exactly when one was
    extracted and a [logStream] member exactly when a non-empty log stream
    is configured; and the entry keeps the timestamp of the log event. *)
Theorem detail_members (opts : Opts) (logEvent : LogEvent.t)
    (fields : Fields.t) (w : World) :
  extractFields logEvent = Some fields ->
  exists members,
    createLogEntry (constructor opts) logEvent w
    = (Returned (Some {| LogEntry.timestamp := logEvent.(LogEvent.timestamp);
                         LogEntry.message := JSON.stringify (JSON.Obj members);
                         LogEntry.level :=
                           (entry_of (constructor opts) logEvent fields)
                             .(LogEntry.level) |}),
       w)
    /\ JSON.get "inv" members
       = Some (JSON.Obj
                 [ ("invocationId",
                    JSON.Str match fields.(Fields.requestId) with
                             | Some id => if (id =? "")%string then "n/a" else id
                             | None => "n/a"
                             end);
                   ("functionName", JSON.Str opts.(funcName)) ])
    /\ JSON.get "timestamp" members
       = option_map JSON.Str fields.(Fields.timestamp)
    /\ JSON.get "logStream" members
       = match opts.(logStream) with
         | Some stream => if (stream =? "")%string then None
                          else Some (JSON.Str stream)
         | None => None
         end.
Proof.
  intro Hfields; unfold createLogEntry; rewrite Hfields.
  unfold entry_of, text_of, constructor;
    cbn [app LogEntry.level _functionName _logStream].
  eexists; split; [reflexivity|].
  split.
  { cbn [JSON.get String.eqb Ascii.eqb Bool.eqb]; do 3 f_equal.
    destruct (Fields.requestId fields) as [id|]; [|reflexivity].
    cbn; now destruct (id =? "")%string. }
  destruct (Fields.timestamp fields) as [ts|];
    destruct (logStream opts) as [stream|]; cbn;
    try destruct (stream =? "")%string; auto.
Qed.

(** X18. The serialised message of an entry holds no character below
    U+0020: the line feeds, carriage returns, tabs and other C0 control
    characters of the log text are always escaped, whatever the text. *)
Theorem entry_message_escapes_C0 (this : DataDogLogger)
    (logEvent : LogEvent.t) (w : World) (logEntry : LogEntry.t) :
  fst (createLogEntry this logEvent w) = Returned (Some logEntry) ->
  all_chars not_C0_control logEntry.(LogEntry.message) = true.
Proof.
  unfold createLogEntry.
  destruct (extractFields logEvent) as [fields|]; [|discriminate].
  intros [= <-]; unfold entry_of, text_of; cbn [LogEntry.message app].
  destruct (Fields.timestamp fields) as [ts|];
    destruct (truthy (_logStream this));
    try destruct (_logStream this) as [stream|];
    cbn [JSON.optional app JSON.stringify];
    rewrite ?all_chars_app, ?quote_not_C0; reflexivity.
Qed.

End Feeder.

(* ------------------------------------------------------------------ *)
(** ** The properties on the events of the test suite *)

Import Samples.

(** The lower-case spelling of a level is not on the scale. *)
Lemma unlisted_level_never_sent_witness :
  indexOf LOG_LEVELS "info" = (-1)%Z
  /\ shouldSendLevel (constructor no_tables opts) "info" = false.
Proof.
  apply (@unlisted_level_never_sent no_tables opts "info").
  simpl; intros [H|[H|[H|[H|[H|[H|[H|[]]]]]]]]; discriminate H.
Defined.

(** Three transport failures in a row, outside the test harness: waits of
    1 s and 2 s, and the error of the third attempt. *)
Lemma retry_policy_witness :
  let input := request_for (constructor no_tables opts) [] in
  let intake := fun n (_ : Request.t) =>
                  match n with
                  | 0 => Rejects (FetchError "connection reset")
                  | 1 => Rejects (FetchError "timeout")
                  | _ => Rejects (FetchError "that went wrong")
                  end in
  fetchRetry false intake input start
  = (Thrown (FetchError "that went wrong"),
     {| fetches := 3;
        trace := [Fetched input; Slept 1000;
                  Fetched input; Slept 2000;
                  Fetched input] |}).
Proof.
  intros input intake.
  apply (proj2 (proj2 (@retry_policy false intake input start
                         (fun n => match n with
                                   | 0 => "connection reset"
                                   | 1 => "timeout"
                                   | _ => "that went wrong"
                                   end)))).
  intros n Hn; destruct n as [|[|n]]; reflexivity.
Defined.

(** A 403 on the second attempt, after one transport failure. *)
Lemma rejection_not_retried_witness :
  let input := request_for (constructor no_tables opts) [] in
  let intake := fun n (_ : Request.t) =>
                  match n with
                  | O => Rejects (FetchError "connection reset")
                  | S _ => status 403 "that went wrong"
                  end in
  fetchRetry false intake input start
  = (Thrown (Error "Failed to send logs with status 403: that went wrong"),
     {| fetches := 2;
        trace := [Fetched input; Slept 1000; Fetched input] |}).
Proof.
  intros input intake.
  apply (@rejection_not_retried false intake input start 1
           (fun _ => "connection reset")
           {| Response.status := 403; Response.body := "that went wrong" |}).
  - simpl; lia.
  - intros n Hn; assert (n = 0) as -> by lia; reflexivity.
  - reflexivity.
  - reflexivity.
Defined.

(** A DEBUG line and a line without pattern at the default threshold. *)
Lemma empty_set_no_request_witness :
  sendEntries no_tables false (FieldExtractor.extractFields no_tables) unreachable
    (constructor no_tables opts) [debug; patternless] start
  = (Returned {| rejected := [patternless]; sent := 0 |},
     {| fetches := 0; trace := [Warned patternless] |}).
Proof.
  apply (@empty_set_no_request no_tables false (FieldExtractor.extractFields no_tables) unreachable
           (constructor no_tables opts) [debug; patternless] start).
  reflexivity.
Defined.

Lemma completion_report_witness :
  List.length [patternless] = 1
  /\ 2 = List.length
           (payload_of no_tables (FieldExtractor.extractFields no_tables) (constructor no_tables opts)
              [bleep; debug; patternless; info]).
Proof.
  destruct (@completion_report no_tables false (FieldExtractor.extractFields no_tables) accepting
              (constructor no_tables opts) [bleep; debug; patternless; info] start
              (snd (sendEntries no_tables false (FieldExtractor.extractFields no_tables)
                      accepting (constructor no_tables opts)
                      [bleep; debug; patternless; info] start))
              {| rejected := [patternless]; sent := 2 |}
              eq_refl)
    as [Hrejected [Hsent _]].
  split; [reflexivity | exact Hsent].
Defined.

Lemma sendEntries_partition_witness :
  [patternless]
  = filter (unclassifiable (FieldExtractor.extractFields no_tables))
           [bleep; debug; patternless; info]
  /\ 4 = 1 + List.length
               (dropped_of no_tables (FieldExtractor.extractFields no_tables) (constructor no_tables opts)
                  [bleep; debug; patternless; info])
           + 2.
Proof.
  destruct (@sendEntries_partition no_tables false (FieldExtractor.extractFields no_tables) flaky
              (constructor no_tables opts) [bleep; debug; patternless; info] start
              (snd (sendEntries no_tables false (FieldExtractor.extractFields no_tables)
                      flaky (constructor no_tables opts)
                      [bleep; debug; patternless; info] start))
              {| rejected := [patternless]; sent := 2 |}
              eq_refl)
    as [Hrejected [_ [_ [_ [Hcount _]]]]].
  split; [exact Hrejected | exact Hcount].
Defined.

(** The candidate BLEEP. *)
Lemma unknown_severity_is_INFO_witness :
  exists members pre post,
    createLogEntry no_tables (FieldExtractor.extractFields no_tables) (constructor no_tables opts) bleep start
    = (Returned (Some {| LogEntry.timestamp := 1668084827204;
                         LogEntry.message := JSON.stringify (JSON.Obj members);
                         LogEntry.level := "INFO" |}), start)
    /\ JSON.get "level" members = Some (JSON.Str "bleep")
    /\ JSON.stringify (JSON.Obj members)
       = pre ++ JSON.quote "level" ++ ":" ++ JSON.quote "bleep" ++ post.
Proof.
  apply (@unknown_severity_is_INFO no_tables (FieldExtractor.extractFields no_tables)
           (constructor no_tables opts) bleep
           {| Fields.message := "this should end up as INFO message" ++ LF;
              Fields.requestId := Some "d12ddc0c-1f6b-51d7-be22-83b52c83d6da";
              Fields.level := "BLEEP";
              Fields.timestamp := Some "2024-11-21T13:12:30.462Z" |}
           start).
  - reflexivity.
  - simpl; intros [H|[H|[H|[H|[H|[H|[H|[]]]]]]]]; discriminate H.
Defined.

(** The intake endpoint answers 403 "that went wrong" to a batch of one
    INFO line and one line without pattern. *)
Lemma dead_letter_completeness_witness :
  exists envelope tail,
    fst (pipeline no_tables false (FieldExtractor.extractFields no_tables) forbidden queue
           (constructor no_tables opts) [info; patternless] start)
    = Thrown (Error "Failed to send logs with status 403: that went wrong")
    /\ (snd (pipeline no_tables false (FieldExtractor.extractFields no_tables) forbidden queue
               (constructor no_tables opts) [info; patternless] start)).(trace)
       = ([Warned patternless;
           Fetched (request_for (constructor no_tables opts)
                      (payload_of no_tables (FieldExtractor.extractFields no_tables)
                         (constructor no_tables opts) [info; patternless]))]
          ++ Enqueued envelope :: tail)%list
    /\ List.length (undelivered envelope) = 1
    /\ In (RejectedLine patternless) envelope.
Proof.
  destruct (@dead_letter_completeness no_tables false (FieldExtractor.extractFields no_tables)
              forbidden queue (constructor no_tables opts) [info; patternless] start
              {| fetches := 0; trace := [Warned patternless] |}
              {| fetches := 1;
                 trace := [Warned patternless;
                           Fetched (request_for (constructor no_tables opts)
                              (payload_of no_tables (FieldExtractor.extractFields no_tables)
                                 (constructor no_tables opts) [info; patternless]))] |}
              [patternless]
              (accepted_of no_tables (FieldExtractor.extractFields no_tables)
                 (constructor no_tables opts) [info; patternless])
              (Error "Failed to send logs with status 403: that went wrong")
              eq_refl eq_refl)
    as [envelope [tail [Hrun [_ [Hlen [_ [Hlines _]]]]]]].
  exists envelope, tail.
  rewrite Hrun; cbn [fst snd trace].
  repeat split; [exact Hlen | apply Hlines; now left].
Defined.

(* ------------------------------------------------------------------ *)
(** ** The cases of [test/datadog.test.js], replayed

    The test harness sets [MOCHA_ENV]: one retry, after one millisecond. *)

(** [invokes constructor with different backend URL] *)
Example replay_different_backend_URL :
  sendEntries no_tables true (FieldExtractor.extractFields no_tables) accepting
    (constructor no_tables opts_example_com) [bleep; debug; debug_explicit] start
  = (Returned {| rejected := []; sent := 1 |},
     {| fetches := 1;
        trace :=
          [Fetched
             (request_for (constructor no_tables opts_example_com)
                [{| Entry.timestamp := 1668084827204;
                    Entry.message :=
                      json ("{'inv':{'invocationId':'d12ddc0c-1f6b-51d7-be22-83b52c83d6da',"
                            ++ "'functionName':'/services/func/v1'},"
                            ++ "'message':'this should end up as INFO message',"
                            ++ "'level':'bleep',"
                            ++ "'timestamp':'2024-11-21T13:12:30.462Z'}");
                    Entry.level := "INFO";
                    Entry.service :=
                      "arn:aws:lambda:us-east-1:123456789012:function:services--func";
                    Entry.ddsource := "aws-lambda";
                    Entry.hostname := "lambda";
                    Entry.ddtags := None |}])] |}).
Proof. vm_compute; reflexivity. Qed.

(** [sends entry with no log level, should default to INFO] *)
Example replay_no_level_defaults_to_INFO :
  sendEntries no_tables true (FieldExtractor.extractFields no_tables) accepting
    (constructor no_tables opts_versioned) [timed_out] start
  = (Returned {| rejected := []; sent := 1 |},
     {| fetches := 1;
        trace :=
          [Fetched
             (request_for (constructor no_tables opts_versioned)
                [{| Entry.timestamp := 1668084827204;
                    Entry.message :=
                      json ("{'inv':{'invocationId':'n/a',"
                            ++ "'functionName':'/services/func/v1'},"
                            ++ "'message':'Task timed out after 60.07 seconds',"
                            ++ "'level':'info'}");
                    Entry.level := "INFO";
                    Entry.service :=
                      "arn:aws:lambda:us-east-1:123456789012:function:services--func";
                    Entry.ddsource := "aws-lambda";
                    Entry.hostname := "lambda";
                    Entry.ddtags := Some "version:1.0.0" |}])] |}).
Proof. vm_compute; reflexivity. Qed.

(** [invokes constructor, should filter DEBUG messages, and nothing sent] *)
Example replay_nothing_sent :
  sendEntries no_tables true (FieldExtractor.extractFields no_tables) unreachable
    (constructor no_tables opts) [debug] start
  = (Returned {| rejected := []; sent := 0 |}, start).
Proof. vm_compute; reflexivity. Qed.

(** [retries as many times as we have delays and stops when successful] *)
Example replay_retries_and_stops_when_successful :
  let request := request_for (constructor no_tables opts)
                   (payload_of no_tables (FieldExtractor.extractFields no_tables)
                      (constructor no_tables opts) [info]) in
  sendEntries no_tables true (FieldExtractor.extractFields no_tables) flaky
    (constructor no_tables opts) [info] start
  = (Returned {| rejected := []; sent := 1 |},
     {| fetches := 2;
        trace := [Fetched request; Slept 1; Fetched request] |}).
Proof. vm_compute; reflexivity. Qed.

(** [forwards error when posting throws when all delays are consumed] *)
Example replay_all_delays_consumed :
  let request := request_for (constructor no_tables opts)
                   (payload_of no_tables (FieldExtractor.extractFields no_tables)
                      (constructor no_tables opts) [info]) in
  sendEntries no_tables true (FieldExtractor.extractFields no_tables) unreachable
    (constructor no_tables opts) [info] start
  = (Thrown (FetchError "that went wrong"),
     {| fetches := 2;
        trace := [Fetched request; Slept 1; Fetched request] |}).
Proof. vm_compute; reflexivity. Qed.

(** [throws when posting returns a bad status code] *)
Example replay_bad_status_code :
  fst (sendEntries no_tables true (FieldExtractor.extractFields no_tables) malformed
         (constructor no_tables opts) [info] start)
  = Thrown (Error "Failed to send logs with status 400: input malformed")
  /\ (snd (sendEntries no_tables true (FieldExtractor.extractFields no_tables) malformed
              (constructor no_tables opts) [info] start)).(fetches) = 1.
Proof. vm_compute; split; reflexivity. Qed.

(** [throws when posting returns an error other than FetchError] *)
Example replay_error_other_than_FetchError :
  fst (sendEntries no_tables true (FieldExtractor.extractFields no_tables) broken
         (constructor no_tables opts) [info] start)
  = Thrown (OtherError "TypeError" "something went wrong")
  /\ (snd (sendEntries no_tables true (FieldExtractor.extractFields no_tables) broken
              (constructor no_tables opts) [info] start)).(fetches) = 1.
Proof. vm_compute; split; reflexivity. Qed.

(* ------------------------------------------------------------------ *)
(** ** The further properties on the events of the test suite *)

(** The endpoint is reached at the second request. *)
Lemma fetchRetry_resolves_ok_witness :
  Response.ok {| Response.status := 200; Response.body := "" |} = true
  /\ exists n,
       2 = S n
       /\ flaky n (request_for (constructor no_tables opts) [])
          = Resolves {| Response.status := 200; Response.body := "" |}
       /\ exists before,
            [Fetched (request_for (constructor no_tables opts) []); Slept 1000;
             Fetched (request_for (constructor no_tables opts) [])]
            = ([] ++ before
                  ++ [Fetched (request_for (constructor no_tables opts) [])])%list.
Proof.
  apply (@fetchRetry_resolves_ok false flaky
           (request_for (constructor no_tables opts) []) start
           {| fetches := 2;
              trace := [Fetched (request_for (constructor no_tables opts) []);
                        Slept 1000;
                        Fetched (request_for (constructor no_tables opts) [])] |}
           {| Response.status := 200; Response.body := "" |}).
  reflexivity.
Defined.

Lemma success_after_transport_failures_witness :
  let input := request_for (constructor no_tables opts) [] in
  fetchRetry false flaky input start
  = (Returned {| Response.status := 200; Response.body := "" |},
     {| fetches := 2;
        trace := [Fetched input; Slept 1000; Fetched input] |}).
Proof.
  intro input.
  apply (@success_after_transport_failures false flaky input start 1
           (fun _ => "that went wrong")
           {| Response.status := 200; Response.body := "" |}).
  - simpl; lia.
  - intros n Hn; assert (n = 0) as -> by lia; reflexivity.
  - reflexivity.
  - reflexivity.
Defined.

(** A [TypeError] at the first request. *)
Lemma other_error_not_retried_witness :
  let input := request_for (constructor no_tables opts) [] in
  fetchRetry false broken input start
  = (Thrown (OtherError "TypeError" "something went wrong"),
     {| fetches := 1; trace := [Fetched input] |}).
Proof.
  intro input.
  apply (@other_error_not_retried false broken input start 0
           (fun _ => "") (OtherError "TypeError" "something went wrong")).
  - simpl; lia.
  - intros n Hn; lia.
  - reflexivity.
  - intros m; discriminate.
Defined.

(** An endpoint that cannot be reached, and a budget of ten calls. *)
Lemma retry_loop_terminates_witness :
  wrapFetch (fetch unreachable) (retryDelay false) (retryOn false) 10
    (request_for (constructor no_tables opts) []) start
  = fetchRetry false unreachable (request_for (constructor no_tables opts) []) start
  /\ fst (fetchRetry false unreachable
            (request_for (constructor no_tables opts) []) start) <> Unsettled.
Proof.
  apply (@retry_loop_terminates false unreachable 10
           (request_for (constructor no_tables opts) []) start).
  simpl; lia.
Defined.

(** The threshold [Warn]. *)
Lemma threshold_case_insensitive_witness :
  constructor no_tables (with_level opts "warn")
  = constructor no_tables (with_level opts "Warn")
  /\ constructor no_tables (with_level opts "WARN")
     = constructor no_tables (with_level opts "Warn").
Proof.
  apply (@threshold_case_insensitive no_tables opts "Warn").
  intro Hascii; discriminate Hascii.
Defined.

(** INFO passes the default threshold, hence so does WARN; ERROR passes
    the threshold [error]. *)
Lemma filter_upward_closed_witness :
  shouldSendLevel (constructor no_tables opts) "WARN" = true
  /\ shouldSendLevel (constructor no_tables (with_level opts "error")) "ERROR"
     = true.
Proof.
  split.
  - apply (proj1 (@filter_upward_closed no_tables opts) "INFO" "WARN").
    + reflexivity.
    + vm_compute; discriminate.
  - apply (proj2 (@filter_upward_closed no_tables (with_level opts "error"))).
Defined.

Lemma default_threshold_is_INFO_witness :
  shouldSendLevel (constructor no_tables opts) "VERBOSE" = true
  <-> "VERBOSE" = "INFO" \/ "VERBOSE" = "WARN" \/ "VERBOSE" = "ERROR".
Proof.
  apply (@default_threshold_is_INFO no_tables opts "VERBOSE").
  reflexivity.
Defined.

(** The entry of the WARN line of a logger with threshold [warn]. *)
Lemma entry_level_is_on_scale_witness :
  let warn := line (event_only ("WARN" ++ TAB ++ "this should be visible" ++ LF)) in
  let this := constructor no_tables (with_level opts "warn") in
  let fields := {| Fields.message := "this should be visible" ++ LF;
                   Fields.requestId := None;
                   Fields.level := "WARN";
                   Fields.timestamp := None |} in
  In (entry_of no_tables this warn fields).(LogEntry.level) LOG_LEVELS
  /\ (entry_of no_tables this warn fields).(LogEntry.level) = "WARN".
Proof.
  intros warn this fields.
  destruct (@entry_level_is_on_scale no_tables (FieldExtractor.extractFields no_tables) this warn
              start (entry_of no_tables this warn fields) eq_refl) as [Hin Hkeep].
  split; [exact Hin|].
  apply (Hkeep fields eq_refl).
  simpl; tauto.
Defined.

(** The candidate BLEEP at the default threshold and at [warn]. *)
Lemma unknown_severity_delivery_witness :
  let fields := {| Fields.message := "this should end up as INFO message" ++ LF;
                   Fields.requestId :=
                     Some "d12ddc0c-1f6b-51d7-be22-83b52c83d6da";
                   Fields.level := "BLEEP";
                   Fields.timestamp := Some "2024-11-21T13:12:30.462Z" |} in
  let this := constructor no_tables (with_level opts "warn") in
  fate no_tables (FieldExtractor.extractFields no_tables) this bleep
  = IsDropped (entry_of no_tables this bleep fields).
Proof.
  intros fields this.
  apply (proj2 (@unknown_severity_delivery no_tables (FieldExtractor.extractFields no_tables)
                  this bleep fields eq_refl
                  ltac:(simpl; intros [H|[H|[H|[H|[H|[H|[H|[]]]]]]]];
                        discriminate H))).
  vm_compute; reflexivity.
Defined.

Lemma sendEntries_app_witness :
  [patternless] = ([] ++ [patternless])%list
  /\ 2 = 1 + 1
  /\ payload_of no_tables (FieldExtractor.extractFields no_tables) (constructor no_tables opts)
       ([bleep; debug] ++ [patternless; info])
     = (payload_of no_tables (FieldExtractor.extractFields no_tables) (constructor no_tables opts)
          [bleep; debug]
        ++ payload_of no_tables (FieldExtractor.extractFields no_tables) (constructor no_tables opts)
             [patternless; info])%list.
Proof.
  apply (@sendEntries_app no_tables false (FieldExtractor.extractFields no_tables) accepting
           (constructor no_tables opts) [bleep; debug] [patternless; info]
           start
           (snd (sendEntries no_tables false (FieldExtractor.extractFields no_tables) accepting
                   (constructor no_tables opts) [bleep; debug] start))
           start
           (snd (sendEntries no_tables false (FieldExtractor.extractFields no_tables) accepting
                   (constructor no_tables opts) [patternless; info] start))
           start
           (snd (sendEntries no_tables false (FieldExtractor.extractFields no_tables) accepting
                   (constructor no_tables opts)
                   ([bleep; debug] ++ [patternless; info]) start))
           {| rejected := []; sent := 1 |}
           {| rejected := [patternless]; sent := 1 |}
           {| rejected := [patternless]; sent := 2 |}
           eq_refl eq_refl eq_refl).
Defined.

(** [Task timed out after 60.07 seconds], followed by two line feeds. *)
Lemma detail_message_trimmed_witness :
  exists members text trailing,
    createLogEntry no_tables (FieldExtractor.extractFields no_tables) (constructor no_tables opts)
      timed_out start
    = (Returned (Some {| LogEntry.timestamp := 1668084827204;
                         LogEntry.message := JSON.stringify (JSON.Obj members);
                         LogEntry.level := "INFO" |}), start)
    /\ JSON.get "message" members = Some (JSON.Str text)
    /\ "Task timed out after 60.07 seconds" ++ LF ++ LF = text ++ trailing
    /\ all_chars is_space trailing = true
    /\ forall pre c, text = pre ++ String c "" -> is_space c = false.
Proof.
  apply (@detail_message_trimmed no_tables (FieldExtractor.extractFields no_tables)
           (constructor no_tables opts) timed_out
           {| Fields.message := "Task timed out after 60.07 seconds" ++ LF ++ LF;
              Fields.requestId := None;
              Fields.level := "INFO";
              Fields.timestamp := None |}
           start).
  - reflexivity.
  - reflexivity.
Defined.

Lemma detail_members_witness :
  exists members,
    createLogEntry no_tables (FieldExtractor.extractFields no_tables) (constructor no_tables opts)
      timed_out start
    = (Returned (Some {| LogEntry.timestamp := 1668084827204;
                         LogEntry.message := JSON.stringify (JSON.Obj members);
                         LogEntry.level := "INFO" |}), start)
    /\ JSON.get "inv" members
       = Some (JSON.Obj [ ("invocationId", JSON.Str "n/a");
                          ("functionName", JSON.Str "/services/func/v1") ])
    /\ JSON.get "timestamp" members = None
    /\ JSON.get "logStream" members = None.
Proof.
  apply (@detail_members no_tables (FieldExtractor.extractFields no_tables) opts timed_out
           {| Fields.message := "Task timed out after 60.07 seconds" ++ LF ++ LF;
              Fields.requestId := None;
              Fields.level := "INFO";
              Fields.timestamp := None |}
           start).
  reflexivity.
Defined.

(** A message of several lines. *)
Lemma entry_message_escapes_C0_witness :
  let lines := line (event_only ("INFO" ++ TAB ++ "this" ++ LF ++ "is" ++ LF
                                   ++ "a" ++ LF ++ "message" ++ LF)) in
  all_chars not_C0_control
    (entry_of no_tables (constructor no_tables opts) lines
       {| Fields.message := "this" ++ LF ++ "is" ++ LF ++ "a" ++ LF
                              ++ "message" ++ LF;
          Fields.requestId := None;
          Fields.level := "INFO";
          Fields.timestamp := None |}).(LogEntry.message)
  = true.
Proof.
  intro lines.
  apply (@entry_message_escapes_C0 no_tables (FieldExtractor.extractFields no_tables)
           (constructor no_tables opts) lines start).
  reflexivity.
Defined.
